(** * ComphiEngine: the Vulkan graphics context

    A shallow embedding of
    [Comphi/src/Comphi/Renderer/Vulkan/GraphicsContext.cpp] (queue family
    selection, swapchain parameters, sync objects, the per-frame [Draw]) and
    of [ImageBuffer::transitionImageLayout], with the properties the
    specification states about them.

    Conventions.  A [uint32_t] is a [Z] with its wrap-around written out
    ([u32]); queue family indices, frame slots and image indices are [nat];
    a [std::vector] is a [list]; a [std::optional] is an [option]; the
    numeric values of the Vulkan enumerators are those of [vulkan_core.h].
    A function that can [throw] returns a [Result]; [Draw], which also
    mutates the context and talks to the driver, runs in the monad [M]
    below, which records the driver calls it makes.

    Also modelled: the instance extension and validation layer checks,
    device selection ([checkDeviceExtensionSupport], [isDeviceSuitable],
    [pickPhysicalDevice]), the queue create infos of [createLogicalDevice],
    [createImageViews] and [createFramebuffers], [recreateSwapChain] as
    [Draw] calls it, the image constructors
    ([initImageBuffer], [initTextureImageBuffer], [initDepthImageBuffer],
    [copyBufferToImgBuffer]) and the layout of [drawBuffers] that
    [createDescriptorSet] relies on.  What the driver or a helper outside
    these files answers is an argument of the function that asks. *)

From Stdlib Require Import ZArith Bool String Lia Sorted.
From stdpp Require Import base list strings gmap.

Local Open Scope string_scope.
Local Open Scope Z_scope.

(** ** Vulkan enumerators used by the code *)

Module Vk.

Definition UINT32_MAX : Z := 4294967295.

(* VkResult *)
Definition VK_SUCCESS : Z := 0.
Definition VK_NOT_READY : Z := 1.
Definition VK_TIMEOUT : Z := 2.
Definition VK_SUBOPTIMAL_KHR : Z := 1000001003.
Definition VK_ERROR_DEVICE_LOST : Z := -4.
Definition VK_ERROR_SURFACE_LOST_KHR : Z := -1000000000.
Definition VK_ERROR_OUT_OF_DATE_KHR : Z := -1000001004.

(* VkQueueFlagBits *)
Definition VK_QUEUE_GRAPHICS_BIT : Z := 1.
Definition VK_QUEUE_COMPUTE_BIT : Z := 2.
Definition VK_QUEUE_TRANSFER_BIT : Z := 4.
Definition VK_QUEUE_SPARSE_BINDING_BIT : Z := 8.

(* VkFormat, VkColorSpaceKHR *)
Definition VK_FORMAT_B8G8R8A8_UNORM : Z := 44.
Definition VK_FORMAT_B8G8R8A8_SRGB : Z := 50.
Definition VK_FORMAT_D32_SFLOAT : Z := 126.
Definition VK_FORMAT_D24_UNORM_S8_UINT : Z := 129.
Definition VK_FORMAT_D32_SFLOAT_S8_UINT : Z := 130.
Definition VK_COLOR_SPACE_SRGB_NONLINEAR_KHR : Z := 0.

(* VkPresentModeKHR *)
Definition VK_PRESENT_MODE_IMMEDIATE_KHR : Z := 0.
Definition VK_PRESENT_MODE_MAILBOX_KHR : Z := 1.
Definition VK_PRESENT_MODE_FIFO_KHR : Z := 2.

(* VkSharingMode *)
Definition VK_SHARING_MODE_EXCLUSIVE : Z := 0.
Definition VK_SHARING_MODE_CONCURRENT : Z := 1.

Definition VK_IMAGE_USAGE_COLOR_ATTACHMENT_BIT : Z := 16.
Definition VK_COMPOSITE_ALPHA_OPAQUE_BIT_KHR : Z := 1.

(* VkImageLayout *)
Definition VK_IMAGE_LAYOUT_UNDEFINED : Z := 0.
Definition VK_IMAGE_LAYOUT_GENERAL : Z := 1.
Definition VK_IMAGE_LAYOUT_COLOR_ATTACHMENT_OPTIMAL : Z := 2.
Definition VK_IMAGE_LAYOUT_DEPTH_STENCIL_ATTACHMENT_OPTIMAL : Z := 3.
Definition VK_IMAGE_LAYOUT_SHADER_READ_ONLY_OPTIMAL : Z := 5.
Definition VK_IMAGE_LAYOUT_TRANSFER_SRC_OPTIMAL : Z := 6.
Definition VK_IMAGE_LAYOUT_TRANSFER_DST_OPTIMAL : Z := 7.

(* VkImageAspectFlagBits *)
Definition VK_IMAGE_ASPECT_COLOR_BIT : Z := 1.
Definition VK_IMAGE_ASPECT_DEPTH_BIT : Z := 2.
Definition VK_IMAGE_ASPECT_STENCIL_BIT : Z := 4.

(* VkPipelineStageFlagBits *)
Definition VK_PIPELINE_STAGE_TOP_OF_PIPE_BIT : Z := 1.
Definition VK_PIPELINE_STAGE_FRAGMENT_SHADER_BIT : Z := 128.
Definition VK_PIPELINE_STAGE_EARLY_FRAGMENT_TESTS_BIT : Z := 256.
Definition VK_PIPELINE_STAGE_TRANSFER_BIT : Z := 4096.

(* VkAccessFlagBits *)
Definition VK_ACCESS_SHADER_READ_BIT : Z := 32.
Definition VK_ACCESS_DEPTH_STENCIL_ATTACHMENT_READ_BIT : Z := 512.
Definition VK_ACCESS_DEPTH_STENCIL_ATTACHMENT_WRITE_BIT : Z := 1024.
Definition VK_ACCESS_TRANSFER_WRITE_BIT : Z := 4096.

(* VkFenceCreateFlagBits *)
Definition VK_FENCE_CREATE_SIGNALED_BIT : Z := 1.

End Vk.
Import Vk.

(** ** Machine integers and exceptions *)

(** [static_cast<uint32_t>] and [uint32_t] arithmetic. *)
Definition u32 (z : Z) : Z := z mod 2 ^ 32.

(** [std::clamp(v, lo, hi)]: [lo] if [v < lo], [hi] if [hi < v], else [v]
    (the behaviour is undefined when [hi < lo]). *)
Definition std_clamp (v lo hi : Z) : Z :=
  if v <? lo then lo else if hi <? v then hi else v.

(** The outcome of a function that can throw.  [Undefined] stands for
    undefined behaviour (reading element 0 of an empty vector). *)
Inductive Result (A : Type) : Type :=
| Ok (a : A)
| Throw (what : string)
| Undefined.
Arguments Ok {A} a.
Arguments Throw {A} what.
Arguments Undefined {A}.

Definition Result_bind {A B} (r : Result A) (k : A -> Result B) : Result B :=
  match r with
  | Ok a => k a
  | Throw what => Throw what
  | Undefined => Undefined
  end.

(** [std::optional::value()] throws [std::bad_optional_access] when empty. *)
Definition value {A} (o : option A) : Result A :=
  match o with
  | Some a => Ok a
  | None => Throw "bad optional access"
  end.

(** ** Swapchain parameters *)

Record VkExtent2D := { width : Z; height : Z }.

Record VkSurfaceFormatKHR := { format : Z; colorSpace : Z }.

Record VkSurfaceCapabilitiesKHR := {
  minImageCount : Z;
  maxImageCount : Z;
  currentExtent : VkExtent2D;
  minImageExtent : VkExtent2D;
  maxImageExtent : VkExtent2D;
  currentTransform : Z
}.

Record SwapChainSupportDetails := {
  capabilities : VkSurfaceCapabilitiesKHR;
  formats : list VkSurfaceFormatKHR;
  presentModes : list Z
}.

(** [GraphicsContext::chooseSwapSurfaceFormat]: the range-for returns the
    first element passing the test; after the loop [availableFormats[0]]. *)
Definition is_ideal_format (availableFormat : VkSurfaceFormatKHR) : bool :=
  (format availableFormat =? VK_FORMAT_B8G8R8A8_SRGB)
  && (colorSpace availableFormat =? VK_COLOR_SPACE_SRGB_NONLINEAR_KHR).

Definition chooseSwapSurfaceFormat (availableFormats : list VkSurfaceFormatKHR)
  : Result VkSurfaceFormatKHR :=
  match List.find is_ideal_format availableFormats with
  | Some availableFormat => Ok availableFormat
  | None =>
      match availableFormats !! 0%nat with
      | Some first => Ok first
      | None => Undefined
      end
  end.

(** [GraphicsContext::chooseSwapPresentMode]. *)
Definition chooseSwapPresentMode (availablePresentModes : list Z) : Z :=
  match List.find (fun m => m =? VK_PRESENT_MODE_MAILBOX_KHR) availablePresentModes with
  | Some availablePresentMode => availablePresentMode
  | None => VK_PRESENT_MODE_FIFO_KHR
  end.

(** [GraphicsContext::chooseSwapExtent].  [glfwGetFramebufferSize] is the
    pair of [int]s the window system writes into [width] and [height]. *)
Definition chooseSwapExtent (glfwGetFramebufferSize : Z * Z)
    (capabilities : VkSurfaceCapabilitiesKHR) : VkExtent2D :=
  if negb (width (currentExtent capabilities) =? UINT32_MAX) then
    currentExtent capabilities
  else
    let '(w, h) := glfwGetFramebufferSize in
    let actualExtent := {| width := u32 w; height := u32 h |} in
    {| width := std_clamp (width actualExtent)
                  (width (minImageExtent capabilities))
                  (width (maxImageExtent capabilities));
       height := std_clamp (height actualExtent)
                   (height (minImageExtent capabilities))
                   (height (maxImageExtent capabilities)) |}.

(** The [imageCount] computed in [GraphicsContext::createSwapChain]. *)
Definition imageCount (capabilities : VkSurfaceCapabilitiesKHR) : Z :=
  let imageCount := u32 (minImageCount capabilities + 1) in
  if (0 <? maxImageCount capabilities) && (maxImageCount capabilities <? imageCount)
  then maxImageCount capabilities
  else imageCount.

Record QueueFamilyIndices := {
  graphicsFamily : option nat;
  transferFamily : option nat;
  presentFamily : option nat
}.

Record VkSwapchainCreateInfoKHR := {
  ci_minImageCount : Z;
  imageFormat : Z;
  imageColorSpace : Z;
  imageExtent : VkExtent2D;
  imageArrayLayers : Z;
  imageUsage : Z;
  imageSharingMode : Z;
  queueFamilyIndexCount : Z;
  pQueueFamilyIndices : option (list nat);
  preTransform : Z;
  compositeAlpha : Z;
  presentMode : Z;
  clipped : bool
}.

(** [GraphicsContext::createSwapChain] up to the call of
    [vkCreateSwapchainKHR]: the [createInfo] it passes to the driver. *)
Definition createSwapChain_createInfo (swapChainSupport : SwapChainSupportDetails)
    (glfwGetFramebufferSize : Z * Z) (queueFamilyIndices : QueueFamilyIndices)
  : Result VkSwapchainCreateInfoKHR :=
  Result_bind (chooseSwapSurfaceFormat (formats swapChainSupport)) (fun surfaceFormat =>
  let presentMode := chooseSwapPresentMode (presentModes swapChainSupport) in
  let extent := chooseSwapExtent glfwGetFramebufferSize (capabilities swapChainSupport) in
  let imageCount := imageCount (capabilities swapChainSupport) in
  Result_bind (value (graphicsFamily queueFamilyIndices)) (fun g =>
  Result_bind (value (transferFamily queueFamilyIndices)) (fun t =>
  let indices := [g; t] in
  let concurrent :=
    negb (bool_decide (graphicsFamily queueFamilyIndices = transferFamily queueFamilyIndices)) in
  Ok {| ci_minImageCount := imageCount;
        imageFormat := format surfaceFormat;
        imageColorSpace := colorSpace surfaceFormat;
        imageExtent := extent;
        imageArrayLayers := 1;
        imageUsage := VK_IMAGE_USAGE_COLOR_ATTACHMENT_BIT;
        imageSharingMode :=
          if concurrent then VK_SHARING_MODE_CONCURRENT else VK_SHARING_MODE_EXCLUSIVE;
        queueFamilyIndexCount := if concurrent then 2 else 0;
        pQueueFamilyIndices := if concurrent then Some indices else None;
        preTransform := currentTransform (capabilities swapChainSupport);
        compositeAlpha := VK_COMPOSITE_ALPHA_OPAQUE_BIT_KHR;
        presentMode := presentMode;
        clipped := true |}))).

(** The swapchain state [createSwapChain] leaves in the context. *)
Record SwapChain := {
  swapChainImageFormat : Z;
  swapChainExtent : VkExtent2D
}.

Definition createSwapChain (swapChainSupport : SwapChainSupportDetails)
    (glfwGetFramebufferSize : Z * Z) (queueFamilyIndices : QueueFamilyIndices)
    (vkCreateSwapchainKHR : VkSwapchainCreateInfoKHR -> Z) : Result SwapChain :=
  Result_bind
    (createSwapChain_createInfo swapChainSupport glfwGetFramebufferSize queueFamilyIndices)
    (fun createInfo =>
       if negb (vkCreateSwapchainKHR createInfo =? VK_SUCCESS) then
         Throw "failed to create swap chain"
       else
         Ok {| swapChainImageFormat := imageFormat createInfo;
               swapChainExtent := imageExtent createInfo |}).

(** ** Queue family selection *)

Record VkQueueFamilyProperties := { queueFlags : Z; queueCount : Z }.

(** What the driver reports for one physical device and the surface:
    [vkGetPhysicalDeviceQueueFamilyProperties] and, per family index,
    [vkGetPhysicalDeviceSurfaceSupportKHR]. *)
Record PhysicalDevice := {
  queueFamilies : list VkQueueFamilyProperties;
  surfaceSupport : nat -> bool
}.

Definition no_indices : QueueFamilyIndices :=
  {| graphicsFamily := None; transferFamily := None; presentFamily := None |}.

(** Modelled from the spec: [QueueFamilyIndices::isComplete] is declared in
    GraphicsContext.h, which is not among the sources; the specification
    says that selection is complete only when all three indices are
    present. *)
Definition isComplete (indices : QueueFamilyIndices) : bool :=
  match graphicsFamily indices, transferFamily indices, presentFamily indices with
  | Some _, Some _, Some _ => true
  | _, _, _ => false
  end.

Definition graphicsQueueflags : Z :=
  Z.lor (Z.lor VK_QUEUE_GRAPHICS_BIT VK_QUEUE_TRANSFER_BIT) VK_QUEUE_SPARSE_BINDING_BIT.
Definition transferQueueflags : Z :=
  Z.lor VK_QUEUE_TRANSFER_BIT VK_QUEUE_SPARSE_BINDING_BIT.

(** The three tests of the loop body of [findQueueFamilies]. *)
Definition graphics_capable (queueFamily : VkQueueFamilyProperties) : bool :=
  Z.land (queueFlags queueFamily) graphicsQueueflags =? graphicsQueueflags.

Definition transfer_only (queueFamily : VkQueueFamilyProperties) : bool :=
  (Z.land (queueFlags queueFamily) transferQueueflags =? transferQueueflags)
  && (Z.land (queueFlags queueFamily) VK_QUEUE_GRAPHICS_BIT =? 0).

(** One iteration of the loop, before the [isComplete] test: each of the
    three assignments overwrites what an earlier iteration stored. *)
Definition visit_family (device : PhysicalDevice) (i : nat)
    (queueFamily : VkQueueFamilyProperties) (indices : QueueFamilyIndices)
  : QueueFamilyIndices :=
  let presentSupport := surfaceSupport device i in
  let indices :=
    if presentSupport then
      {| graphicsFamily := graphicsFamily indices;
         transferFamily := transferFamily indices;
         presentFamily := Some i |}
    else indices in
  let indices :=
    if graphics_capable queueFamily then
      {| graphicsFamily := Some i;
         transferFamily := transferFamily indices;
         presentFamily := presentFamily indices |}
    else indices in
  if transfer_only queueFamily then
    {| graphicsFamily := graphicsFamily indices;
       transferFamily := Some i;
       presentFamily := presentFamily indices |}
  else indices.

(** The loop of [findQueueFamilies] from family [i] on.  Besides the
    indices it returns the family indices it passed to
    [vkGetPhysicalDeviceSurfaceSupportKHR], in call order: the families the
    scan visited. *)
Fixpoint findQueueFamilies_loop (device : PhysicalDevice) (i : nat)
    (rest : list VkQueueFamilyProperties) (indices : QueueFamilyIndices)
  : QueueFamilyIndices * list nat :=
  match rest with
  | [] => (indices, [])
  | queueFamily :: rest =>
      let indices := visit_family device i queueFamily indices in
      if isComplete indices then (indices, [i])
      else
        let '(found, visited) := findQueueFamilies_loop device (S i) rest indices in
        (found, i :: visited)
  end.

Definition findQueueFamilies_scan (device : PhysicalDevice)
  : Result (QueueFamilyIndices * list nat) :=
  if (length (queueFamilies device) =? 0)%nat then
    Throw "failed to queueFamilies for device"
  else Ok (findQueueFamilies_loop device 0 (queueFamilies device) no_indices).

(** [GraphicsContext::findQueueFamilies]. *)
Definition findQueueFamilies (device : PhysicalDevice) : Result QueueFamilyIndices :=
  Result_bind (findQueueFamilies_scan device) (fun r => Ok (fst r)).

(** The last index below [n] at which [p] holds, if any. *)
Fixpoint last_index_below (p : nat -> bool) (n : nat) : option nat :=
  match n with
  | O => None
  | S m => if p m then Some m else last_index_below p m
  end.

(** The first index at which [p] holds among [i], [i+1], ..., one per
    element of [l]. *)
Fixpoint first_index_from {A} (p : nat -> A -> bool) (i : nat) (l : list A) : option nat :=
  match l with
  | [] => None
  | x :: l => if p i x then Some i else first_index_from p (S i) l
  end.

(** The predicates of the three slots, by family index. *)
Definition graphics_at (device : PhysicalDevice) (i : nat) : bool :=
  match queueFamilies device !! i with
  | Some queueFamily => graphics_capable queueFamily
  | None => false
  end.

Definition transfer_at (device : PhysicalDevice) (i : nat) : bool :=
  match queueFamilies device !! i with
  | Some queueFamily => transfer_only queueFamily
  | None => false
  end.

Definition present_at (device : PhysicalDevice) (i : nat) : bool :=
  match queueFamilies device !! i with
  | Some _ => surfaceSupport device i
  | None => false
  end.

(** ** Image layout transitions *)

Module ImageBuffer.

Inductive CommandQueueOperation := MEM_TransferCommand | MEM_GraphicsCommand.

Record VkImageMemoryBarrier := {
  oldLayout : Z;
  newLayout : Z;
  aspectMask : Z;
  srcAccessMask : Z;
  dstAccessMask : Z;
  srcQueueFamilyIndex : nat;
  dstQueueFamilyIndex : nat
}.

(** The fields of the image buffer the transition reads or writes; the
    two family indices are those of its [graphicsHandler]. *)
Record t := {
  imageLayout : Z;
  imageFormat : Z;
  transferQueueFamily : nat;
  graphicsQueueFamily : nat
}.

(** What the transition asks of the device. *)
Inductive Command :=
| beginCommandBuffer (queueOperation : CommandQueueOperation)
| vkCmdPipelineBarrier (sourceStage destinationStage : Z) (barrier : VkImageMemoryBarrier)
| endCommandBuffer.

Definition hasStencilComponent (this : t) : bool :=
  (imageFormat this =? VK_FORMAT_D32_SFLOAT_S8_UINT)
  || (imageFormat this =? VK_FORMAT_D24_UNORM_S8_UINT).

Definition with_layout (this : t) (layout : Z) : t :=
  {| imageLayout := layout;
     imageFormat := imageFormat this;
     transferQueueFamily := transferQueueFamily this;
     graphicsQueueFamily := graphicsQueueFamily this |}.

(** [ImageBuffer::transitionImageLayout]: the commands issued, and the
    image buffer afterwards or the exception thrown. *)
Definition transitionImageLayout (this : t) (newLayout : Z)
  : list Command * Result t :=
  let aspect :=
    if newLayout =? VK_IMAGE_LAYOUT_DEPTH_STENCIL_ATTACHMENT_OPTIMAL then
      if hasStencilComponent this
      then Z.lor VK_IMAGE_ASPECT_DEPTH_BIT VK_IMAGE_ASPECT_STENCIL_BIT
      else VK_IMAGE_ASPECT_DEPTH_BIT
    else VK_IMAGE_ASPECT_COLOR_BIT in
  let barrier srcAccess dstAccess srcFamily dstFamily :=
    {| oldLayout := imageLayout this;
       newLayout := newLayout;
       aspectMask := aspect;
       srcAccessMask := srcAccess;
       dstAccessMask := dstAccess;
       srcQueueFamilyIndex := srcFamily;
       dstQueueFamilyIndex := dstFamily |} in
  let submit queueOperation sourceStage destinationStage barrier :=
    ([beginCommandBuffer queueOperation;
      vkCmdPipelineBarrier sourceStage destinationStage barrier;
      endCommandBuffer],
     Ok (with_layout this newLayout)) in
  if (imageLayout this =? VK_IMAGE_LAYOUT_UNDEFINED)
     && (newLayout =? VK_IMAGE_LAYOUT_TRANSFER_DST_OPTIMAL) then
    submit MEM_TransferCommand
      VK_PIPELINE_STAGE_TOP_OF_PIPE_BIT VK_PIPELINE_STAGE_TRANSFER_BIT
      (barrier 0 VK_ACCESS_TRANSFER_WRITE_BIT
         (transferQueueFamily this) (transferQueueFamily this))
  else if (imageLayout this =? VK_IMAGE_LAYOUT_TRANSFER_DST_OPTIMAL)
          && (newLayout =? VK_IMAGE_LAYOUT_SHADER_READ_ONLY_OPTIMAL) then
    submit MEM_GraphicsCommand
      VK_PIPELINE_STAGE_TRANSFER_BIT VK_PIPELINE_STAGE_FRAGMENT_SHADER_BIT
      (barrier VK_ACCESS_TRANSFER_WRITE_BIT VK_ACCESS_SHADER_READ_BIT
         (transferQueueFamily this) (graphicsQueueFamily this))
  else if (imageLayout this =? VK_IMAGE_LAYOUT_UNDEFINED)
          && (newLayout =? VK_IMAGE_LAYOUT_DEPTH_STENCIL_ATTACHMENT_OPTIMAL) then
    submit MEM_GraphicsCommand
      VK_PIPELINE_STAGE_TOP_OF_PIPE_BIT VK_PIPELINE_STAGE_EARLY_FRAGMENT_TESTS_BIT
      (barrier 0
         (Z.lor VK_ACCESS_DEPTH_STENCIL_ATTACHMENT_READ_BIT
            VK_ACCESS_DEPTH_STENCIL_ATTACHMENT_WRITE_BIT)
         (transferQueueFamily this) (graphicsQueueFamily this))
  else ([], Throw "unsupported layout transition!").

(** The three layout pairs the function has a branch for. *)
Definition supported (fromLayout toLayout : Z) : Prop :=
  (fromLayout = VK_IMAGE_LAYOUT_UNDEFINED /\ toLayout = VK_IMAGE_LAYOUT_TRANSFER_DST_OPTIMAL)
  \/ (fromLayout = VK_IMAGE_LAYOUT_TRANSFER_DST_OPTIMAL
      /\ toLayout = VK_IMAGE_LAYOUT_SHADER_READ_ONLY_OPTIMAL)
  \/ (fromLayout = VK_IMAGE_LAYOUT_UNDEFINED
      /\ toLayout = VK_IMAGE_LAYOUT_DEPTH_STENCIL_ATTACHMENT_OPTIMAL).

Definition shader_read_only_image : t :=
  {| imageLayout := VK_IMAGE_LAYOUT_SHADER_READ_ONLY_OPTIMAL;
     imageFormat := VK_FORMAT_B8G8R8A8_SRGB;
     transferQueueFamily := 1;
     graphicsQueueFamily := 0 |}.

End ImageBuffer.

(** ** Image views and framebuffers *)

Record VkImageViewCreateInfo := {
  iv_image : nat;
  iv_format : Z
}.

Record VkFramebufferCreateInfo := {
  fb_attachment : VkImageViewCreateInfo;
  fb_width : Z;
  fb_height : Z;
  fb_layers : Z
}.

(** The loop of [GraphicsContext::createImageViews] from image number [i]
    on: [swapChainImages] are the image handles, [vkCreateImageView] the
    driver's result per index; a view stands for the create info it was
    made from. *)
Fixpoint createImageViews_loop (swapChainImageFormat : Z) (vkCreateImageView : nat -> Z)
    (i : nat) (swapChainImages : list nat) : Result (list VkImageViewCreateInfo) :=
  match swapChainImages with
  | [] => Ok []
  | image :: swapChainImages =>
      let createInfo := {| iv_image := image; iv_format := swapChainImageFormat |} in
      if negb (vkCreateImageView i =? VK_SUCCESS) then
        Throw "failed to create image view!"
      else
        Result_bind
          (createImageViews_loop swapChainImageFormat vkCreateImageView (S i) swapChainImages)
          (fun views => Ok (createInfo :: views))
  end.

Definition createImageViews (swapChain : SwapChain) (swapChainImages : list nat)
    (vkCreateImageView : nat -> Z) : Result (list VkImageViewCreateInfo) :=
  createImageViews_loop (swapChainImageFormat swapChain) vkCreateImageView 0 swapChainImages.

(** The loop of [GraphicsContext::createFramebuffers]. *)
Fixpoint createFramebuffers_loop (swapChainExtent : VkExtent2D) (vkCreateFramebuffer : nat -> Z)
    (i : nat) (swapChainImageViews : list VkImageViewCreateInfo)
  : Result (list VkFramebufferCreateInfo) :=
  match swapChainImageViews with
  | [] => Ok []
  | view :: swapChainImageViews =>
      let framebufferInfo :=
        {| fb_attachment := view;
           fb_width := width swapChainExtent;
           fb_height := height swapChainExtent;
           fb_layers := 1 |} in
      if negb (vkCreateFramebuffer i =? VK_SUCCESS) then
        Throw "failed to create framebuffer!"
      else
        Result_bind
          (createFramebuffers_loop swapChainExtent vkCreateFramebuffer (S i) swapChainImageViews)
          (fun framebuffers => Ok (framebufferInfo :: framebuffers))
  end.

Definition createFramebuffers (swapChain : SwapChain)
    (swapChainImageViews : list VkImageViewCreateInfo) (vkCreateFramebuffer : nat -> Z)
  : Result (list VkFramebufferCreateInfo) :=
  createFramebuffers_loop (swapChainExtent swapChain) vkCreateFramebuffer 0 swapChainImageViews.

(** ** Fences, the frame context and the driver *)

(** The state of a fence handle as the calls of this program leave it.
    [VK_NULL_HANDLE] is what [resize] fills the vector with.  A fence is
    [Signaled] when it was created with the signaled bit or a wait on it
    has returned, [Unsignaled] once [vkResetFences] has reset it, and
    [Pending] once a successful [vkQueueSubmit] has named it, until the
    program waits on it.  Whether the GPU has meanwhile finished the work
    behind a pending fence (as it has when [vkDeviceWaitIdle] returns) is
    not tracked. *)
Inductive Fence := VK_NULL_HANDLE | Signaled | Unsignaled | Pending.

(** [vkCreateFence] with [fenceInfo.flags]. *)
Definition vkCreateFence (flags : Z) : Fence :=
  if Z.land flags VK_FENCE_CREATE_SIGNALED_BIT =? 0 then Unsignaled else Signaled.

(** The members of [GraphicsContext] on which the control flow of [Draw]
    depends.  The swapchain with its images, views and framebuffers, the
    command buffers and the semaphores are not among them: [Draw] hands
    them to the driver, whose answers are given by [Driver] below. *)
Record GraphicsContext := {
  currentFrame : nat;
  framebufferResized : bool;
  inFlightFences : list Fence
}.

Inductive LogLevel := LogInfo | LogError | LogFatal.

(** The calls [Draw] makes, in order.  [blocked] says that the fence waited
    on was not known to be signaled; [EvRecreateSwapChain] marks the entry
    into [recreateSwapChain], [EvDeviceWaitIdle] and [EvCleanupSwapChain]
    the two calls it makes once the window has a size;
    [EvRecordCommandBuffer] carries the index with which
    [recordCommandBuffer] reads [swapChainFramebuffers]. *)
Inductive Event :=
| EvWaitForFences (slot : nat) (blocked : bool)
| EvAcquireNextImage (slot : nat)
| EvLog (level : LogLevel) (message : string)
| EvRecreateSwapChain
| EvDeviceWaitIdle
| EvCleanupSwapChain
| EvResetFences (slot : nat)
| EvResetCommandBuffer (slot : nat)
| EvRecordCommandBuffer (slot imageIndex : nat)
| EvUpdateUniformBuffer (slot : nat)
| EvQueueSubmit (slot : nat)
| EvQueuePresent (imageIndex : nat).

(** How a piece of the function body ends: it falls through with a value,
    executes [return], throws, never returns (a wait on a fence nothing
    will signal, or for a window that stays minimised), or has undefined
    behaviour (a vector read out of range, a null fence). *)
Inductive Exit (A : Type) : Type :=
| Normal (a : A)
| Return
| Thrown (what : string)
| Hang
| UB.
Arguments Normal {A} a.
Arguments Return {A}.
Arguments Thrown {A} what.
Arguments Hang {A}.
Arguments UB {A}.

Record Outcome (A : Type) := {
  exit : Exit A;
  context : GraphicsContext;
  events : list Event
}.
Arguments exit {A} o.
Arguments context {A} o.
Arguments events {A} o.

Definition M (A : Type) : Type := GraphicsContext -> Outcome A.

Definition ret {A} (a : A) : M A :=
  fun ctx => {| exit := Normal a; context := ctx; events := [] |}.

Definition bind {A B} (m : M A) (k : A -> M B) : M B :=
  fun ctx =>
    let o := m ctx in
    match exit o with
    | Normal a =>
        let o' := k a (context o) in
        {| exit := exit o'; context := context o'; events := events o ++ events o' |}
    | Return => {| exit := Return; context := context o; events := events o |}
    | Thrown what => {| exit := Thrown what; context := context o; events := events o |}
    | Hang => {| exit := Hang; context := context o; events := events o |}
    | UB => {| exit := UB; context := context o; events := events o |}
    end.

Notation "x <- m ;; k" := (bind m (fun x => k))
  (at level 100, m at next level, right associativity).
Notation "m ;; k" := (bind m (fun _ => k))
  (at level 100, right associativity).

Definition stop {A} (e : Exit A) : M A :=
  fun ctx => {| exit := e; context := ctx; events := [] |}.
Definition emit (e : Event) : M unit :=
  fun ctx => {| exit := Normal tt; context := ctx; events := [e] |}.
Definition get : M GraphicsContext :=
  fun ctx => {| exit := Normal ctx; context := ctx; events := [] |}.
Definition modify (f : GraphicsContext -> GraphicsContext) : M unit :=
  fun ctx => {| exit := Normal tt; context := f ctx; events := [] |}.

(** A whole function body: [return] ends the function, not its caller. *)
Definition body (m : M unit) : M unit :=
  fun ctx =>
    let o := m ctx in
    {| exit := match exit o with Return => Normal tt | e => e end;
       context := context o;
       events := events o |}.

Definition with_fence (slot : nat) (f : Fence) (ctx : GraphicsContext) : GraphicsContext :=
  {| currentFrame := currentFrame ctx;
     framebufferResized := framebufferResized ctx;
     inFlightFences := <[slot := f]> (inFlightFences ctx) |}.

Definition with_framebufferResized (b : bool) (ctx : GraphicsContext) : GraphicsContext :=
  {| currentFrame := currentFrame ctx;
     framebufferResized := b;
     inFlightFences := inFlightFences ctx |}.

Definition with_currentFrame (n : nat) (ctx : GraphicsContext) : GraphicsContext :=
  {| currentFrame := n;
     framebufferResized := framebufferResized ctx;
     inFlightFences := inFlightFences ctx |}.

(** [vkWaitForFences(.., &inFlightFences[slot], VK_TRUE, UINT64_MAX)]: it
    returns at once on a signaled fence, after the GPU has signaled it on a
    pending one, and never on a fence that nothing will signal. *)
Definition vkWaitForFences (slot : nat) : M unit :=
  ctx <- get ;;
  match inFlightFences ctx !! slot with
  | Some Signaled => emit (EvWaitForFences slot false)
  | Some Pending => emit (EvWaitForFences slot true) ;; modify (with_fence slot Signaled)
  | Some Unsignaled => emit (EvWaitForFences slot true) ;; stop Hang
  | Some VK_NULL_HANDLE | None => stop UB
  end.

(** [vkResetFences(.., &inFlightFences[slot])]. *)
Definition vkResetFences (slot : nat) : M unit :=
  ctx <- get ;;
  match inFlightFences ctx !! slot with
  | Some VK_NULL_HANDLE | None => stop UB
  | Some _ => emit (EvResetFences slot) ;; modify (with_fence slot Unsignaled)
  end.

(** What [Draw] finds outside the frame context during one call.  First
    the result of each driver call of [Draw] itself, and the value
    [imageIndex] holds after [vkAcquireNextImageKHR]: the index the driver
    stored or, when it stored none, what the uninitialised variable held.
    Then what [recreateSwapChain] meets: the sizes that successive calls of
    [glfwGetFramebufferSize] report (the window stays at the last one, and
    stays minimised when there is none), the swapchain support of the
    surface, the queue families chosen at start-up (a member of
    [GraphicsContext] that [Draw] never writes), the images of the new
    swapchain and the results of the creation calls. *)
Record Driver := {
  vkAcquireNextImageKHR : Z;
  acquiredImageIndex : nat;
  vkBeginCommandBuffer : Z;
  vkEndCommandBuffer : Z;
  vkQueueSubmit : Z;
  vkQueuePresentKHR : Z;
  glfwGetFramebufferSize : list (Z * Z);
  querySwapChainSupport : SwapChainSupportDetails;
  queueFamilyIndices : QueueFamilyIndices;
  vkCreateSwapchainKHR : VkSwapchainCreateInfoKHR -> Z;
  vkGetSwapchainImagesKHR : list nat;
  vkCreateImageView : nat -> Z;
  vkCreateFramebuffer : nat -> Z
}.

(** A log line followed by [throw std::runtime_error(what)]. *)
Definition throw {A} (level : LogLevel) (what : string) : M A :=
  emit (EvLog level what) ;; stop (Thrown what).

(** A call of a function modelled as a [Result]: its exception or its
    undefined behaviour ends the caller. *)
Definition lift {A} (r : Result A) : M A :=
  match r with
  | Ok a => ret a
  | Throw what => stop (Thrown what)
  | Undefined => stop UB
  end.

(** The loop at the head of [recreateSwapChain], over the sizes that the
    calls of [glfwGetFramebufferSize] report: it ends at the first size
    with no zero side, and never ends when there is none.  The result is
    that size and the reports that follow it.  ([glfwWaitEvents] is taken
    to return.) *)
Fixpoint recreateSwapChain_wait (sizes : list (Z * Z)) : option ((Z * Z) * list (Z * Z)) :=
  match sizes with
  | [] => None
  | size :: sizes =>
      if (fst size =? 0) || (snd size =? 0) then recreateSwapChain_wait sizes
      else Some (size, sizes)
  end.

(** [GraphicsContext::recreateSwapChain].  [chooseSwapExtent] asks the
    window for its size once more, after the loop: it gets the next
    report, or the same size again when there is none.  [vkDeviceWaitIdle]
    (its result is not looked at) and [cleanupSwapChain] are recorded as
    events; the three creation functions are the ones modelled above, and
    what they throw leaves [recreateSwapChain] and its caller. *)
Definition recreateSwapChain (drv : Driver) : M unit :=
  emit EvRecreateSwapChain ;;
  match recreateSwapChain_wait (glfwGetFramebufferSize drv) with
  | None => stop Hang
  | Some (size, later) =>
      emit EvDeviceWaitIdle ;;
      emit EvCleanupSwapChain ;;
      (swapChain <- lift (createSwapChain (querySwapChainSupport drv) (List.hd size later)
                            (queueFamilyIndices drv) (vkCreateSwapchainKHR drv)) ;;
       swapChainImageViews <- lift (createImageViews swapChain (vkGetSwapchainImagesKHR drv)
                                      (vkCreateImageView drv)) ;;
       swapChainFramebuffers <- lift (createFramebuffers swapChain swapChainImageViews
                                        (vkCreateFramebuffer drv)) ;;
       ret tt)
  end.

(** [GraphicsContext::recordCommandBuffer].  Between the two driver calls it
    reads [swapChainFramebuffers[imageIndex]]; the framebuffers are not part
    of the frame context, so the model records the index in the event and
    does not say whether it is in range. *)
Definition recordCommandBuffer (drv : Driver) (slot imageIndex : nat) : M unit :=
  if negb (vkBeginCommandBuffer drv =? VK_SUCCESS) then
    throw LogFatal "failed to begin recording command buffer!"
  else
    emit (EvRecordCommandBuffer slot imageIndex) ;;
    if negb (vkEndCommandBuffer drv =? VK_SUCCESS) then
      throw LogFatal "failed to record command buffer!"
    else ret tt.


(** [GraphicsContext::Draw], in the stages its opening comment lists. *)

(** Acquire an image from the swap chain (from [vkAcquireNextImageKHR] to
    the end of the [if]/[else] on its result). *)
Definition Draw_acquire (drv : Driver) (slot : nat) : M nat :=
  let result := vkAcquireNextImageKHR drv in
  emit (EvAcquireNextImage slot) ;;
  (if negb (result =? VK_SUCCESS) then
     emit (EvLog LogError "failed to acquireNextImage!")
   else
     if result =? VK_ERROR_OUT_OF_DATE_KHR then
       recreateSwapChain drv ;; stop Return
     else if negb (result =? VK_SUCCESS) && negb (result =? VK_SUBOPTIMAL_KHR) then
       throw LogError "failed to acquire swap chain image!"
     else ret tt) ;;
  ret (acquiredImageIndex drv).

(** Record the command buffer and submit it (from [vkResetFences] to the
    test of [vkQueueSubmit]). *)
Definition Draw_submit (drv : Driver) (slot imageIndex : nat) : M unit :=
  vkResetFences slot ;;
  emit (EvResetCommandBuffer slot) ;;
  recordCommandBuffer drv slot imageIndex ;;
  emit (EvUpdateUniformBuffer slot) ;;
  emit (EvQueueSubmit slot) ;;
  if negb (vkQueueSubmit drv =? VK_SUCCESS) then
    throw LogFatal "failed to submit draw command buffer!"
  else modify (with_fence slot Pending).

(** Present the swap chain image (from [vkQueuePresentKHR] to the end of
    the [if]/[else if] on its result). *)
Definition Draw_present (drv : Driver) (imageIndex : nat) : M unit :=
  emit (EvQueuePresent imageIndex) ;;
  let result := vkQueuePresentKHR drv in
  ctx <- get ;;
  if (result =? VK_ERROR_OUT_OF_DATE_KHR) || (result =? VK_SUBOPTIMAL_KHR)
     || framebufferResized ctx then
    modify (with_framebufferResized false) ;;
    recreateSwapChain drv
  else if negb (result =? VK_SUCCESS) then
    throw LogFatal "failed to present swap chain image!"
  else ret tt.

Definition prepend {A} (es : list Event) (o : Outcome A) : Outcome A :=
  {| exit := exit o; context := context o; events := es ++ events o |}.

(** The events of the submit stage up to and including the queue
    submission. *)
Definition submit_events (slot imageIndex : nat) : list Event :=
  [EvResetFences slot; EvResetCommandBuffer slot; EvRecordCommandBuffer slot imageIndex;
   EvUpdateUniformBuffer slot; EvQueueSubmit slot].

Section Frames.

(** The number of frame slots; the constant is defined in
    GraphicsContext.h, which is not among the sources. *)
Variable MAX_FRAMES_IN_FLIGHT : nat.

(** [GraphicsContext::createSyncObjects]: the loop over the slots, given
    the results of the three creation calls per slot. *)
Fixpoint createSyncObjects_loop
    (vkCreateSemaphore1 vkCreateSemaphore2 vkCreateFence_result : nat -> Z)
    (slots : list nat) (fences : list Fence) : Result (list Fence) :=
  match slots with
  | [] => Ok fences
  | i :: slots =>
      if negb (vkCreateSemaphore1 i =? VK_SUCCESS)
         || negb (vkCreateSemaphore2 i =? VK_SUCCESS)
         || negb (vkCreateFence_result i =? VK_SUCCESS) then
        Throw "failed to create synchronization objects for a frame!"
      else
        createSyncObjects_loop vkCreateSemaphore1 vkCreateSemaphore2 vkCreateFence_result
          slots (<[i := vkCreateFence VK_FENCE_CREATE_SIGNALED_BIT]> fences)
  end.

Definition createSyncObjects
    (vkCreateSemaphore1 vkCreateSemaphore2 vkCreateFence_result : nat -> Z)
  : Result (list Fence) :=
  createSyncObjects_loop vkCreateSemaphore1 vkCreateSemaphore2 vkCreateFence_result
    (seq 0 MAX_FRAMES_IN_FLIGHT) (replicate MAX_FRAMES_IN_FLIGHT VK_NULL_HANDLE).

(** The last statement of [Draw]. *)
Definition Draw_advance : M unit :=
  ctx <- get ;;
  modify (with_currentFrame ((currentFrame ctx + 1) mod MAX_FRAMES_IN_FLIGHT)%nat).

Definition Draw (drv : Driver) : M unit :=
  body (
    ctx <- get ;;
    let slot := currentFrame ctx in
    vkWaitForFences slot ;;
    imageIndex <- Draw_acquire drv slot ;;
    Draw_submit drv slot imageIndex ;;
    Draw_present drv imageIndex ;;
    Draw_advance).

(** The application calls [Draw] once per tick, with that tick's driver
    answers.  An exception leaves the context as it was when thrown; a
    hang or undefined behaviour ends the run. *)
Fixpoint run (ticks : list Driver) (ctx : GraphicsContext) : list Event :=
  match ticks with
  | [] => []
  | drv :: ticks =>
      let o := Draw drv ctx in
      events o ++
      match exit o with
      | Hang | UB => []
      | _ => run ticks (context o)
      end
  end.

(** [Draw] once more, written out path by path as one outcome per
    combination of driver answers; [Draw_flat_eq] below proves that [Draw]
    computes exactly this, and the proofs about [Draw] go through it. *)

Definition next_frame (ctx : GraphicsContext) : GraphicsContext :=
  with_currentFrame ((currentFrame ctx + 1) mod MAX_FRAMES_IN_FLIGHT)%nat ctx.

Definition needs_recreation (drv : Driver) (ctx : GraphicsContext) : bool :=
  (vkQueuePresentKHR drv =? VK_ERROR_OUT_OF_DATE_KHR)
  || (vkQueuePresentKHR drv =? VK_SUBOPTIMAL_KHR)
  || framebufferResized ctx.

(** [recreateSwapChain] path by path: how it ends and the events it
    leaves; the context is untouched ([recreateSwapChain_eq] below). *)
Definition recreateSwapChain_flat (drv : Driver) : Exit unit * list Event :=
  match recreateSwapChain_wait (glfwGetFramebufferSize drv) with
  | None => (Hang, [EvRecreateSwapChain])
  | Some (size, later) =>
      (match
         Result_bind
           (createSwapChain (querySwapChainSupport drv) (List.hd size later)
              (queueFamilyIndices drv) (vkCreateSwapchainKHR drv))
           (fun swapChain =>
              Result_bind
                (createImageViews swapChain (vkGetSwapchainImagesKHR drv)
                   (vkCreateImageView drv))
                (fun swapChainImageViews =>
                   createFramebuffers swapChain swapChainImageViews (vkCreateFramebuffer drv)))
       with
       | Ok _ => Normal tt
       | Throw what => Thrown what
       | Undefined => UB
       end,
       [EvRecreateSwapChain; EvDeviceWaitIdle; EvCleanupSwapChain])
  end.

(** What [Draw] does once the fence wait has returned, leaving the
    context [ctx]: every path through acquire, submit and present. *)
Definition Draw_after_wait (drv : Driver) (slot : nat) (ctx : GraphicsContext)
  : Outcome unit :=
  let imageIndex := acquiredImageIndex drv in
  prepend (events (Draw_acquire drv slot ctx))
    (let reset := with_fence slot Unsignaled ctx in
     let submitted := with_fence slot Pending reset in
     let thrown what before :=
       {| exit := Thrown what; context := reset;
          events := before ++ [EvLog LogFatal what] |} in
     if negb (vkBeginCommandBuffer drv =? VK_SUCCESS) then
       thrown "failed to begin recording command buffer!"
         [EvResetFences slot; EvResetCommandBuffer slot]
     else if negb (vkEndCommandBuffer drv =? VK_SUCCESS) then
       thrown "failed to record command buffer!"
         [EvResetFences slot; EvResetCommandBuffer slot;
          EvRecordCommandBuffer slot imageIndex]
     else if negb (vkQueueSubmit drv =? VK_SUCCESS) then
       thrown "failed to submit draw command buffer!" (submit_events slot imageIndex)
     else
       prepend (submit_events slot imageIndex ++ [EvQueuePresent imageIndex])
         (if needs_recreation drv submitted then
            let cleared := with_framebufferResized false submitted in
            {| exit := fst (recreateSwapChain_flat drv);
               context := match fst (recreateSwapChain_flat drv) with
                          | Normal _ => next_frame cleared
                          | _ => cleared
                          end;
               events := snd (recreateSwapChain_flat drv) |}
          else if negb (vkQueuePresentKHR drv =? VK_SUCCESS) then
            {| exit := Thrown "failed to present swap chain image!";
               context := submitted;
               events := [EvLog LogFatal "failed to present swap chain image!"] |}
          else
            {| exit := Normal tt; context := next_frame submitted; events := [] |})).

Definition Draw_flat (drv : Driver) (ctx : GraphicsContext) : Outcome unit :=
  let slot := currentFrame ctx in
  match inFlightFences ctx !! slot with
  | Some Signaled =>
      prepend [EvWaitForFences slot false] (Draw_after_wait drv slot ctx)
  | Some Pending =>
      prepend [EvWaitForFences slot true]
        (Draw_after_wait drv slot (with_fence slot Signaled ctx))
  | Some Unsignaled =>
      {| exit := Hang; context := ctx; events := [EvWaitForFences slot true] |}
  | Some VK_NULL_HANDLE | None =>
      {| exit := UB; context := ctx; events := [] |}
  end.

End Frames.

(** ** Instance extensions and validation layers *)

(** [std::find] followed by [erase]: the first occurrence of [x] goes. *)
Fixpoint erase_first (x : string) (l : list string) : list string :=
  match l with
  | [] => []
  | y :: l => if String.eqb y x then l else y :: erase_first x l
  end.

(** [GraphicsContext::checkGLFWRequiredInstanceExtensions], given the
    names GLFW requires and the instance extensions Vulkan lists.  Each
    listed extension erases one occurrence of its name from the required
    ones; what is left is missing.  The log lines are not modelled. *)
Definition checkGLFWRequiredInstanceExtensions (glfwExtensions extensions : list string)
  : Result bool :=
  let extensionsRequired :=
    foldl (fun required vk_ext => erase_first vk_ext required) glfwExtensions extensions in
  match extensionsRequired with
  | _ :: _ => Throw "GLFW REQUIRED EXTENSION MISSING"
  | [] => Ok true
  end.

(** [GraphicsContext::getRequiredGLFWExtensions]. *)
Definition getRequiredGLFWExtensions (glfwExtensions extensions : list string)
  : Result (list string) :=
  Result_bind (checkGLFWRequiredInstanceExtensions glfwExtensions extensions) (fun supported =>
  if negb supported then Ok [] else Ok glfwExtensions).

(** [GraphicsContext::checkValidationLayerSupport]: the inner loop looks
    for [layerName] among the available layers, the outer one gives up at
    the first layer that was not found. *)
Fixpoint checkValidationLayerSupport (validationLayers availableLayers : list string) : bool :=
  match validationLayers with
  | [] => true
  | layerName :: validationLayers =>
      let layerFound := existsb (fun layerProperties => String.eqb layerName layerProperties)
                          availableLayers in
      if negb layerFound then false
      else checkValidationLayerSupport validationLayers availableLayers
  end.

(** ** Device selection *)

(** What the driver reports for one [VkPhysicalDevice]: its queue families
    and surface support, its device extensions, and the swapchain support
    [querySwapChainSupport] collects. *)
Record DeviceReport := {
  queues : PhysicalDevice;
  availableExtensions : list string;
  swapChainSupport : SwapChainSupportDetails
}.

Section DeviceSelection.

(** The required device extensions; the list is defined in
    GraphicsContext.h, which is not among the sources. *)
Variable deviceExtensions : list string.

(** [GraphicsContext::checkDeviceExtensionSupport]: a [std::set] of the
    required names, from which every available name is erased. *)
Definition checkDeviceExtensionSupport (device : DeviceReport) : bool :=
  let requiredExtensions : gset string := list_to_set deviceExtensions in
  let requiredExtensions :=
    foldl (fun (required : gset string) extension => required ∖ {[ extension ]})
      requiredExtensions (availableExtensions device) in
  bool_decide (requiredExtensions = ∅).

(** [GraphicsContext::isDeviceSuitable]: the indices it stores in
    [queueFamilyIndices], and the value it returns. *)
Definition isDeviceSuitable (device : DeviceReport) : Result (QueueFamilyIndices * bool) :=
  Result_bind (findQueueFamilies (queues device)) (fun queueFamilyIndices =>
  let extensionsSupported := checkDeviceExtensionSupport device in
  let swapChainAdequate :=
    if extensionsSupported then
      negb (bool_decide (formats (swapChainSupport device) = []))
      && negb (bool_decide (presentModes (swapChainSupport device) = []))
    else false in
  Ok (queueFamilyIndices,
      isComplete queueFamilyIndices && extensionsSupported && swapChainAdequate)).

(** The loop of [pickPhysicalDevice] from device number [i] on:
    [physicalDevice] (the position of the device picked, if any) and the
    [queueFamilyIndices] left by the last call of [isDeviceSuitable]. *)
Fixpoint pickPhysicalDevice_loop (i : nat) (devices : list DeviceReport)
    (queueFamilyIndices : QueueFamilyIndices)
  : Result (option nat * QueueFamilyIndices) :=
  match devices with
  | [] => Ok (None, queueFamilyIndices)
  | device :: devices =>
      Result_bind (isDeviceSuitable device) (fun r =>
      if snd r then Ok (Some i, fst r)
      else pickPhysicalDevice_loop (S i) devices (fst r))
  end.

(** [GraphicsContext::pickPhysicalDevice]. *)
Definition pickPhysicalDevice (devices : list DeviceReport)
  : Result (nat * QueueFamilyIndices) :=
  if (length devices =? 0)%nat then Throw "failed to find GPUs with Vulkan support!"
  else
    Result_bind (pickPhysicalDevice_loop 0 devices no_indices) (fun r =>
    match fst r with
    | None => Throw "failed to find a suitable GPU!"
    | Some physicalDevice => Ok (physicalDevice, snd r)
    end).

End DeviceSelection.

(** ** Logical device *)

(** Insertion into a [std::set<uint32_t>], kept as the ascending list of
    its elements (the order in which the set is iterated). *)
Fixpoint std_set_insert (x : nat) (s : list nat) : list nat :=
  match s with
  | [] => [x]
  | y :: s' =>
      if (x <? y)%nat then x :: s
      else if (x =? y)%nat then s
      else y :: std_set_insert x s'
  end.

Record VkDeviceQueueCreateInfo := {
  queueFamilyIndex : nat;
  dq_queueCount : Z;
  (* the bits of the one [float] priority, 1.0f *)
  pQueuePriorities : Z
}.

(** [GraphicsContext::createLogicalDevice] up to [vkCreateDevice].  With no
    physical device ([VK_NULL_HANDLE]) the function returns at once and
    builds nothing; otherwise it builds the queue create infos, one per
    element of [uniqueQueueFamilies]. *)
Definition createLogicalDevice_queueCreateInfos (physicalDevice : option nat)
    (queueFamilyIndices : QueueFamilyIndices)
  : Result (option (list VkDeviceQueueCreateInfo)) :=
  match physicalDevice with
  | None => Ok None
  | Some _ =>
      Result_bind (value (graphicsFamily queueFamilyIndices)) (fun g =>
      Result_bind (value (presentFamily queueFamilyIndices)) (fun p =>
      Result_bind (value (transferFamily queueFamilyIndices)) (fun t =>
      let uniqueQueueFamilies := std_set_insert t (std_set_insert p (std_set_insert g [])) in
      Ok (Some (map (fun queueFamily =>
                       {| queueFamilyIndex := queueFamily;
                          dq_queueCount := 1;
                          pQueuePriorities := 1065353216 |})
                  uniqueQueueFamilies)))))
  end.

(** ** Image creation and upload *)

Module ImageInit.
Import ImageBuffer.

(** What the image constructors ask of the device after the image exists:
    the commands of a layout transition, or the buffer-to-image copy
    recorded between [beginCommandBuffer] and [endCommandBuffer]. *)
Inductive Step :=
| Cmd (c : Command)
| vkCmdCopyBufferToImage (dstImageLayout : Z) (extent : VkExtent2D).

(** What the outside answers while an image is built: the size [stbi_load]
    found (nothing when it returns a null pointer), and the results of
    [vkCreateImage], [findMemoryType] (a helper that is not among the
    sources and may throw) and [vkAllocateMemory]. *)
Record Driver := {
  stbi_load : option (Z * Z);
  vkCreateImage : Z;
  findMemoryType : Result Z;
  vkAllocateMemory : Z
}.

(** [ImageBuffer::initImageBuffer]: the layout starts undefined. *)
Definition initImageBuffer (transferFamily graphicsFamily : nat) (format : Z)
    (drv : Driver) : Result t :=
  let this :=
    {| imageLayout := VK_IMAGE_LAYOUT_UNDEFINED;
       imageFormat := format;
       transferQueueFamily := transferFamily;
       graphicsQueueFamily := graphicsFamily |} in
  if negb (vkCreateImage drv =? VK_SUCCESS) then Throw "failed to create image!"
  else
    Result_bind (findMemoryType drv) (fun _ =>
    if negb (vkAllocateMemory drv =? VK_SUCCESS) then Throw "failed to allocate image memory!"
    else Ok this).

(** [ImageBuffer::copyBufferToImgBuffer]. *)
Definition copyBufferToImgBuffer (extent : VkExtent2D) : list Step :=
  [Cmd (beginCommandBuffer MEM_TransferCommand);
   vkCmdCopyBufferToImage VK_IMAGE_LAYOUT_TRANSFER_DST_OPTIMAL extent;
   Cmd endCommandBuffer].

(** [ImageBuffer::initTextureImageBuffer], from [stbi_load] on.  The
    staging buffer (class [MemBuffer]) and the helpers [beginCommandBuffer]
    and [endCommandBuffer] are not among the sources, and neither are the
    ways in which they can fail: the model covers the runs in which they
    return, and leaves the staging buffer's creation and release out. *)
Definition initTextureImageBuffer (transferFamily graphicsFamily : nat) (format : Z)
    (drv : Driver) : list Step * Result t :=
  match stbi_load drv with
  | None => ([], Throw "failed to load texture image!")
  | Some (texWidth, texHeight) =>
      let imageExtent := {| width := u32 texWidth; height := u32 texHeight |} in
      match initImageBuffer transferFamily graphicsFamily format drv with
      | Ok this =>
          let '(commands1, r1) :=
            transitionImageLayout this VK_IMAGE_LAYOUT_TRANSFER_DST_OPTIMAL in
          match r1 with
          | Ok this =>
              let '(commands2, r2) :=
                transitionImageLayout this VK_IMAGE_LAYOUT_SHADER_READ_ONLY_OPTIMAL in
              ((map Cmd commands1 ++ copyBufferToImgBuffer imageExtent ++ map Cmd commands2)%list, r2)
          | failed => (map Cmd commands1, failed)
          end
      | failed => ([], failed)
      end
  end.

(** [ImageBuffer::initDepthImageBuffer]. *)
Definition initDepthImageBuffer (transferFamily graphicsFamily : nat) (format : Z)
    (drv : Driver) : list Step * Result t :=
  match initImageBuffer transferFamily graphicsFamily format drv with
  | Ok this =>
      let '(commands, r) :=
        transitionImageLayout this VK_IMAGE_LAYOUT_DEPTH_STENCIL_ATTACHMENT_OPTIMAL in
      (map Cmd commands, r)
  | failed => ([], failed)
  end.

(** Successive calls of [transitionImageLayout] on one image, up to the
    first that throws: the number of calls that succeeded and the image
    after them (or the exception). *)
Fixpoint transitions (this : t) (targets : list Z) : Result t :=
  match targets with
  | [] => Ok this
  | newLayout :: targets =>
      match snd (transitionImageLayout this newLayout) with
      | Ok this => transitions this targets
      | failed => failed
      end
  end.

(** Driver answers used in examples. *)
Definition loaded_texture : Driver :=
  {| stbi_load := Some (512, 256);
     vkCreateImage := VK_SUCCESS;
     findMemoryType := Ok 0;
     vkAllocateMemory := VK_SUCCESS |}.

Definition depth_image : Driver :=
  {| stbi_load := None;
     vkCreateImage := VK_SUCCESS;
     findMemoryType := Ok 0;
     vkAllocateMemory := VK_SUCCESS |}.

End ImageInit.

(** ** Draw buffers and descriptor sets *)

(** The kinds of buffer [createDrawBuffers] pushes; a uniform buffer
    carries the iteration that created it, the image the state
    [initTextureImageBuffer] left it in. *)
Inductive DrawBuffer :=
| VertexBuffer
| IndexBuffer
| UniformBuffer (i : nat)
| TextureImage (image : ImageBuffer.t).

(** [GraphicsContext::getGraphicsHandler]: the transfer and graphics
    families it hands to the buffers. *)
Definition getGraphicsHandler (queueFamilyIndices : QueueFamilyIndices) : Result (nat * nat) :=
  Result_bind (value (transferFamily queueFamilyIndices)) (fun t =>
  Result_bind (value (graphicsFamily queueFamilyIndices)) (fun g =>
  Ok (t, g))).

Section DrawBuffers.

Variable MAX_FRAMES_IN_FLIGHT : nat.

(** The format the [ImageBuffer] constructor passes on by default; it is
    declared in ImageBufer.h, which is not among the sources. *)
Variable textureFormat : Z.

(** [GraphicsContext::createDrawBuffers]: the vector after the
    [push_back]s.  The constructors of the vertex, index and uniform
    buffers are not among the sources and are taken to succeed. *)
Definition createDrawBuffers (queueFamilyIndices : QueueFamilyIndices)
    (texture : ImageInit.Driver) : Result (list DrawBuffer) :=
  Result_bind (getGraphicsHandler queueFamilyIndices) (fun handler =>
  let drawBuffers := [VertexBuffer; IndexBuffer] in
  let drawBuffers := (drawBuffers ++ map UniformBuffer (seq 0 MAX_FRAMES_IN_FLIGHT))%list in
  Result_bind
    (snd (ImageInit.initTextureImageBuffer (fst handler) (snd handler) textureFormat texture))
    (fun image => Ok (drawBuffers ++ [TextureImage image])%list)).

(** The loop of [createDescriptorSet]: the buffers it binds,
    [drawBuffers[2+i]] for every slot [i]; reading past the end of the
    vector is undefined. *)
Fixpoint createDescriptorSet_loop (drawBuffers : list DrawBuffer) (slots : list nat)
  : Result (list DrawBuffer) :=
  match slots with
  | [] => Ok []
  | i :: slots =>
      match drawBuffers !! (2 + i)%nat with
      | None => Undefined
      | Some buffer =>
          Result_bind (createDescriptorSet_loop drawBuffers slots) (fun bound =>
          Ok (buffer :: bound))
      end
  end.

(** [GraphicsContext::createDescriptorSet]: the buffer bound to each
    descriptor set, in slot order. *)
Definition createDescriptorSet (vkAllocateDescriptorSets : Z) (drawBuffers : list DrawBuffer)
  : Result (list DrawBuffer) :=
  if negb (vkAllocateDescriptorSets =? VK_SUCCESS) then
    Throw "failed to allocate descriptor sets!"
  else createDescriptorSet_loop drawBuffers (seq 0 MAX_FRAMES_IN_FLIGHT).

End DrawBuffers.

(** ** Definitions used to state the properties of a run of frames *)

(** The context is as [createSyncObjects] and [Draw] leave it: the current
    slot is one of the [F] slots and every slot has a fence. *)
Definition well_formed (F : nat) (ctx : GraphicsContext) : Prop :=
  (currentFrame ctx < F)%nat
  /\ length (inFlightFences ctx) = F
  /\ Forall (fun f => f <> VK_NULL_HANDLE) (inFlightFences ctx).

(** The fence waits of a trace: slot, and whether the fence was pending,
    that is named by a submission and not waited on since. *)
Fixpoint waits (es : list Event) : list (nat * bool) :=
  match es with
  | [] => []
  | EvWaitForFences slot blocked :: es => (slot, blocked) :: waits es
  | _ :: es => waits es
  end.

(** The driver hands out an image: [imageIndex] is one it has stored. *)
Definition image_acquired (drv : Driver) : Prop :=
  vkAcquireNextImageKHR drv = VK_SUCCESS \/ vkAcquireNextImageKHR drv = VK_SUBOPTIMAL_KHR.

(** The driver lets the frame through and asks for no new swapchain: it
    hands out an image, recording and submission succeed and presentation
    returns success. *)
Definition frame_succeeds (drv : Driver) : Prop :=
  image_acquired drv
  /\ vkBeginCommandBuffer drv = VK_SUCCESS
  /\ vkEndCommandBuffer drv = VK_SUCCESS
  /\ vkQueueSubmit drv = VK_SUCCESS
  /\ vkQueuePresentKHR drv = VK_SUCCESS.

(** Every fence that the trace waits on or resets is the one of [slot]. *)
Definition fences_of_slot (slot : nat) (es : list Event) : Prop :=
  Forall (fun e => match e with
                   | EvWaitForFences s _ | EvResetFences s => s = slot
                   | _ => True
                   end) es.

(** The fences after [k] frames that all went through with no recreation
    of the swapchain, starting from signaled fences and slot 0. *)
Definition fences_after (F k : nat) : list Fence :=
  map (fun j => if (j <? k)%nat then Pending else Signaled) (seq 0 F).

(** ** Definitions used to state the properties *)

Definition ideal_format : VkSurfaceFormatKHR :=
  {| format := VK_FORMAT_B8G8R8A8_SRGB; colorSpace := VK_COLOR_SPACE_SRGB_NONLINEAR_KHR |}.

(** [r] is [v] brought into the range from [lo] to [hi]. *)
Definition clamped (v lo hi r : Z) : Prop :=
  lo <= r <= hi /\ (lo <= v <= hi -> r = v) /\ (v < lo -> r = lo) /\ (hi < v -> r = hi).

(** The surface reports no extent of its own: the width is the sentinel. *)
Definition sentinel (e : VkExtent2D) : Prop := width e = UINT32_MAX.

Definition example_capabilities : VkSurfaceCapabilitiesKHR :=
  {| minImageCount := 2;
     maxImageCount := 0;
     currentExtent := {| width := UINT32_MAX; height := UINT32_MAX |};
     minImageExtent := {| width := 1; height := 1 |};
     maxImageExtent := {| width := 4096; height := 4096 |};
     currentTransform := 1 |}.

(** The claim C8 as the specification words it: the minimum plus one,
    clamped down to the maximum. *)
Definition min_plus_one_clamped_to_max (caps : VkSurfaceCapabilitiesKHR) : Z :=
  Z.min (minImageCount caps + 1) (maxImageCount caps).

Definition example_support (maxCount : Z) : SwapChainSupportDetails :=
  {| capabilities :=
       {| minImageCount := 2;
          maxImageCount := maxCount;
          currentExtent := {| width := 800; height := 600 |};
          minImageExtent := {| width := 1; height := 1 |};
          maxImageExtent := {| width := 4096; height := 4096 |};
          currentTransform := 1 |};
     formats := [ideal_format];
     presentModes := [VK_PRESENT_MODE_FIFO_KHR] |}.

Definition example_indices (g t : nat) : QueueFamilyIndices :=
  {| graphicsFamily := Some g; transferFamily := Some t; presentFamily := Some g |}.

(** The indices the three slots hold once the families below [n] have been
    visited: each slot has the last family that passed its test. *)
Definition slots_after (device : PhysicalDevice) (n : nat) : QueueFamilyIndices :=
  {| graphicsFamily := last_index_below (graphics_at device) n;
     transferFamily := last_index_below (transfer_at device) n;
     presentFamily := last_index_below (present_at device) n |}.

Definition family (flags : Z) : VkQueueFamilyProperties :=
  {| queueFlags := flags; queueCount := 1 |}.

(** Two graphics and present capable families followed by two transfer-only
    ones; every family can present. *)
Definition four_family_device : PhysicalDevice :=
  {| queueFamilies := [family 13; family 13; family 12; family 12];
     surfaceSupport := fun _ => true |}.

(** The claim C3 as the specification words it: each slot holds the first
    family, in scan order, that passes the slot's test. *)
Definition first_match_wins (device : PhysicalDevice) : Prop :=
  forall found,
    findQueueFamilies device = Ok found ->
    graphicsFamily found
      = first_index_from (fun _ q => graphics_capable q) 0 (queueFamilies device)
    /\ transferFamily found
       = first_index_from (fun _ q => transfer_only q) 0 (queueFamilies device)
    /\ presentFamily found
       = first_index_from (fun i _ => surfaceSupport device i) 0 (queueFamilies device).

(** One family with every capability bit set and presentation support. *)
Definition combined_family_device : PhysicalDevice :=
  {| queueFamilies := [family 15]; surfaceSupport := fun _ => true |}.

(** The claim C2 as the specification words it, for a device whose one
    family is number 0. *)
Definition resolves_all_to_family_0 (device : PhysicalDevice) : Prop :=
  exists found,
    findQueueFamilies device = Ok found
    /\ graphicsFamily found = Some 0%nat
    /\ transferFamily found = Some 0%nat
    /\ presentFamily found = Some 0%nat
    /\ isComplete found = true.

(** A driver for which recording, submission and, when it comes to that,
    the recreation of the swapchain succeed. *)
Definition example_driver (acquire present : Z) : Driver :=
  {| vkAcquireNextImageKHR := acquire;
     acquiredImageIndex := 1;
     vkBeginCommandBuffer := VK_SUCCESS;
     vkEndCommandBuffer := VK_SUCCESS;
     vkQueueSubmit := VK_SUCCESS;
     vkQueuePresentKHR := present;
     glfwGetFramebufferSize := [(0, 0); (800, 600)];
     querySwapChainSupport := example_support 0;
     queueFamilyIndices := example_indices 0 1;
     vkCreateSwapchainKHR := fun _ => VK_SUCCESS;
     vkGetSwapchainImagesKHR := [7; 8; 9]%nat;
     vkCreateImageView := fun _ => VK_SUCCESS;
     vkCreateFramebuffer := fun _ => VK_SUCCESS |}.

(** The same driver, except that it refuses to create a swapchain. *)
Definition failing_recreation_driver (acquire present : Z) : Driver :=
  {| vkAcquireNextImageKHR := acquire;
     acquiredImageIndex := 1;
     vkBeginCommandBuffer := VK_SUCCESS;
     vkEndCommandBuffer := VK_SUCCESS;
     vkQueueSubmit := VK_SUCCESS;
     vkQueuePresentKHR := present;
     glfwGetFramebufferSize := [(800, 600)];
     querySwapChainSupport := example_support 0;
     queueFamilyIndices := example_indices 0 1;
     vkCreateSwapchainKHR := fun _ => VK_ERROR_DEVICE_LOST;
     vkGetSwapchainImagesKHR := [7; 8; 9]%nat;
     vkCreateImageView := fun _ => VK_SUCCESS;
     vkCreateFramebuffer := fun _ => VK_SUCCESS |}.

Definition example_context (resized : bool) : GraphicsContext :=
  {| currentFrame := 0; framebufferResized := resized;
     inFlightFences := [Signaled; Signaled] |}.

(** [Draw] got as far as calling [vkQueuePresentKHR]. *)
Definition presented (o : Outcome unit) : Prop :=
  exists imageIndex, In (EvQueuePresent imageIndex) (events o).

(** The condition of the [if] after the presentation call. *)
Definition recreation_due (result : Z) (ctx : GraphicsContext) : Prop :=
  result = VK_ERROR_OUT_OF_DATE_KHR \/ result = VK_SUBOPTIMAL_KHR
  \/ framebufferResized ctx = true.

Definition is_wait (e : Event) : bool :=
  match e with EvWaitForFences _ _ => true | _ => false end.

Definition no_wait (es : list Event) : Prop := Forall (fun e => is_wait e = false) es.

Definition always_success : nat -> Z := fun _ => VK_SUCCESS.

(** Examples. *)

Definition example_chain : SwapChain :=
  {| swapChainImageFormat := VK_FORMAT_B8G8R8A8_SRGB;
     swapChainExtent := {| width := 800; height := 600 |} |}.



Definition example_extensions : list string := ["VK_KHR_swapchain"].

Definition example_device (queues : PhysicalDevice) : DeviceReport :=
  {| queues := queues;
     availableExtensions := ["VK_KHR_maintenance1"; "VK_KHR_swapchain"];
     swapChainSupport := example_support 0 |}.

Definition four_family_indices : QueueFamilyIndices :=
  {| graphicsFamily := Some 1%nat; transferFamily := Some 2%nat; presentFamily := Some 2%nat |}.

(** * Properties *)

(** ** Swapchain parameters *)

Lemma is_ideal_format_spec (f : VkSurfaceFormatKHR) :
  is_ideal_format f = true <-> f = ideal_format.
Proof.
  unfold is_ideal_format, ideal_format. destruct f as [fm cs]; simpl.
  rewrite andb_true_iff, !Z.eqb_eq. split.
  - intros [-> ->]. reflexivity.
  - intros H. injection H as -> ->. auto.
Qed.

(** C6.  For every non-empty list of available surface formats the
    selection returns a format and does not fail: the ideal format (8-bit
    BGRA, sRGB non-linear colour space) when the list contains it, and the
    first reported format otherwise. *)
Theorem chooseSwapSurfaceFormat_prefers_ideal (availableFormats : list VkSurfaceFormatKHR) :
  availableFormats <> [] ->
  exists chosen,
    chooseSwapSurfaceFormat availableFormats = Ok chosen
    /\ (In ideal_format availableFormats -> chosen = ideal_format)
    /\ (~ In ideal_format availableFormats -> availableFormats !! 0%nat = Some chosen).
Proof.
  intros Hne. unfold chooseSwapSurfaceFormat.
  destruct (List.find is_ideal_format availableFormats) as [f|] eqn:Hfind.
  - apply find_some in Hfind as [Hin Hideal].
    apply is_ideal_format_spec in Hideal. subst f.
    exists ideal_format. split; [reflexivity|]. split; [reflexivity|].
    intros Hn; contradiction.
  - destruct availableFormats as [|first rest]; [congruence|].
    exists first. simpl. split; [reflexivity|]. split; [|reflexivity].
    intros Hin. pose proof (find_none _ _ Hfind _ Hin) as Hno.
    assert (is_ideal_format ideal_format = true) by (apply is_ideal_format_spec; reflexivity).
    congruence.
Qed.

Lemma chooseSwapSurfaceFormat_prefers_ideal_witness :
  exists chosen,
    chooseSwapSurfaceFormat
      [ {| format := VK_FORMAT_B8G8R8A8_UNORM; colorSpace := 0 |}; ideal_format ] = Ok chosen
    /\ chosen = ideal_format.
Proof.
  destruct (chooseSwapSurfaceFormat_prefers_ideal
              [ {| format := VK_FORMAT_B8G8R8A8_UNORM; colorSpace := 0 |}; ideal_format ])
    as (chosen & Hc & Hideal & _).
  - discriminate.
  - exists chosen. split; [exact Hc|]. apply Hideal. simpl. auto.
Defined.

Lemma std_clamp_range (v lo hi : Z) :
  lo <= hi -> lo <= std_clamp v lo hi <= hi.
Proof. unfold std_clamp. intros. destruct (Z.ltb_spec v lo), (Z.ltb_spec hi v); lia. Qed.

Lemma std_clamp_inside (v lo hi : Z) :
  lo <= v <= hi -> std_clamp v lo hi = v.
Proof. unfold std_clamp. intros. destruct (Z.ltb_spec v lo), (Z.ltb_spec hi v); lia. Qed.

Lemma std_clamp_below (v lo hi : Z) : v < lo -> std_clamp v lo hi = lo.
Proof. unfold std_clamp. intros. destruct (Z.ltb_spec v lo); lia. Qed.

Lemma std_clamp_above (v lo hi : Z) : lo <= hi -> hi < v -> std_clamp v lo hi = hi.
Proof. unfold std_clamp. intros. destruct (Z.ltb_spec v lo), (Z.ltb_spec hi v); lia. Qed.

Lemma std_clamp_clamped (v lo hi : Z) : lo <= hi -> clamped v lo hi (std_clamp v lo hi).
Proof.
  intros H. unfold clamped.
  split; [apply std_clamp_range; exact H|].
  split; [apply std_clamp_inside|].
  split; [apply std_clamp_below|apply std_clamp_above; exact H].
Qed.

(** C5.  Extent selection returns the surface's current extent when that is
    not the sentinel; otherwise it returns the window's framebuffer size
    (as unsigned 32-bit numbers) with width and height each clamped to the
    surface's range from the minimum to the maximum extent.  With minimum
    (1,1), maximum (4096,4096), the sentinel and a framebuffer of
    (1920,1080) the result is (1920,1080). *)
Theorem chooseSwapExtent_spec (fb : Z * Z) (caps : VkSurfaceCapabilitiesKHR) :
  width (minImageExtent caps) <= width (maxImageExtent caps) ->
  height (minImageExtent caps) <= height (maxImageExtent caps) ->
  (~ sentinel (currentExtent caps) -> chooseSwapExtent fb caps = currentExtent caps)
  /\ (sentinel (currentExtent caps) ->
      clamped (u32 (fst fb)) (width (minImageExtent caps)) (width (maxImageExtent caps))
        (width (chooseSwapExtent fb caps))
      /\ clamped (u32 (snd fb)) (height (minImageExtent caps)) (height (maxImageExtent caps))
           (height (chooseSwapExtent fb caps)))
  /\ chooseSwapExtent (1920, 1080) example_capabilities = {| width := 1920; height := 1080 |}.
Proof.
  intros Hw Hh. unfold sentinel, chooseSwapExtent.
  destruct (Z.eqb_spec (width (currentExtent caps)) UINT32_MAX) as [He|He]; simpl.
  - split; [intros Hn; contradiction|].
    split; [|reflexivity].
    intros _. destruct fb as [w h]; simpl.
    split; apply std_clamp_clamped; assumption.
  - split; [reflexivity|].
    split; [|reflexivity].
    intros Hs; contradiction.
Qed.

Lemma chooseSwapExtent_spec_witness :
  sentinel (currentExtent example_capabilities)
  /\ width (chooseSwapExtent (5000, 0) example_capabilities) = 4096
  /\ height (chooseSwapExtent (5000, 0) example_capabilities) = 1.
Proof.
  assert (Hs : sentinel (currentExtent example_capabilities)) by reflexivity.
  split; [exact Hs|].
  destruct (chooseSwapExtent_spec (5000, 0) example_capabilities) as (_ & Hc & _).
  - simpl; lia.
  - simpl; lia.
  - destruct (Hc Hs) as [(_ & _ & _ & Hwide) (_ & _ & Hlow & _)].
    split; [apply Hwide|apply Hlow]; vm_compute; reflexivity.
Defined.

(** C8 fails as stated: a surface that reports a maximum of zero (no
    limit) and a minimum of two is asked for three images, not for zero. *)
Lemma imageCount_not_clamped_to_zero_max :
  maxImageCount example_capabilities = 0
  /\ imageCount example_capabilities = 3
  /\ imageCount example_capabilities <> min_plus_one_clamped_to_max example_capabilities.
Proof. vm_compute. repeat split; congruence. Qed.

(** C8, amended.  The swapchain is requested with the minimum image count
    plus one (in unsigned 32-bit arithmetic), clamped down to the maximum
    image count when that maximum is not zero; a maximum of zero is no
    limit and leaves the minimum plus one. *)
Theorem createSwapChain_imageCount (support : SwapChainSupportDetails) (fb : Z * Z)
    (indices : QueueFamilyIndices) (createInfo : VkSwapchainCreateInfoKHR) :
  0 <= maxImageCount (capabilities support) ->
  createSwapChain_createInfo support fb indices = Ok createInfo ->
  ci_minImageCount createInfo =
    if maxImageCount (capabilities support) =? 0
    then u32 (minImageCount (capabilities support) + 1)
    else Z.min (u32 (minImageCount (capabilities support) + 1))
           (maxImageCount (capabilities support)).
Proof.
  intros Hmax. unfold createSwapChain_createInfo.
  destruct (chooseSwapSurfaceFormat (formats support)); simpl; try discriminate.
  destruct (graphicsFamily indices); simpl; try discriminate.
  destruct (transferFamily indices); simpl; try discriminate.
  intros H. injection H as <-. simpl. unfold imageCount.
  destruct (Z.eqb_spec (maxImageCount (capabilities support)) 0) as [->|Hnz].
  - reflexivity.
  - destruct (Z.ltb_spec 0 (maxImageCount (capabilities support))); [|lia].
    destruct (Z.ltb_spec (maxImageCount (capabilities support))
                (u32 (minImageCount (capabilities support) + 1))); simpl; lia.
Qed.

Lemma createSwapChain_imageCount_witness :
  exists createInfo,
    createSwapChain_createInfo (example_support 2) (800, 600) (example_indices 0 1)
      = Ok createInfo
    /\ ci_minImageCount createInfo = 2.
Proof.
  eexists. split; [reflexivity|].
  rewrite (createSwapChain_imageCount (example_support 2) (800, 600) (example_indices 0 1)).
  - reflexivity.
  - simpl; lia.
  - reflexivity.
Defined.

(** Surface format selection is defined exactly on the non-empty lists, and
    never throws. *)
Lemma chooseSwapSurfaceFormat_defined (availableFormats : list VkSurfaceFormatKHR) :
  (availableFormats = [] /\ chooseSwapSurfaceFormat availableFormats = Undefined)
  \/ (availableFormats <> []
      /\ exists surfaceFormat, chooseSwapSurfaceFormat availableFormats = Ok surfaceFormat).
Proof.
  unfold chooseSwapSurfaceFormat.
  destruct availableFormats as [|first others]; [left; split; reflexivity|].
  right. split; [discriminate|].
  destruct (find is_ideal_format (first :: others)); eexists; reflexivity.
Qed.


(** C9.  [createSwapChain] builds its [createInfo] exactly when the surface
    reports a format and the graphics and transfer families are both
    selected (it reads element 0 of an empty vector or [value()] throws
    otherwise), whether or not the two families are equal.  The
    [createInfo] has exclusive sharing with zero queue family indices
    exactly when the selected graphics and transfer families are equal,
    and concurrent sharing with the two indices graphics, transfer exactly
    when they differ. *)
Theorem createSwapChain_sharing_mode (support : SwapChainSupportDetails) (fb : Z * Z)
    (indices : QueueFamilyIndices) :
  ((exists createInfo, createSwapChain_createInfo support fb indices = Ok createInfo)
   <-> formats support <> []
       /\ is_Some (graphicsFamily indices) /\ is_Some (transferFamily indices))
  /\ forall createInfo,
       createSwapChain_createInfo support fb indices = Ok createInfo ->
       exists g t,
         graphicsFamily indices = Some g /\ transferFamily indices = Some t
         /\ ((imageSharingMode createInfo = VK_SHARING_MODE_EXCLUSIVE
              /\ queueFamilyIndexCount createInfo = 0
              /\ pQueueFamilyIndices createInfo = None) <-> g = t)
         /\ ((imageSharingMode createInfo = VK_SHARING_MODE_CONCURRENT
              /\ queueFamilyIndexCount createInfo = 2
              /\ pQueueFamilyIndices createInfo = Some [g; t]) <-> g <> t).
Proof.
  unfold createSwapChain_createInfo.
  destruct (chooseSwapSurfaceFormat_defined (formats support))
    as [[Hnil ->]|[Hformats [surfaceFormat ->]]]; cbn [Result_bind].
  { split.
    - split; [intros [ci H]; discriminate H|intros [H _]; contradiction].
    - intros ci H; discriminate H. }
  destruct (graphicsFamily indices) as [g|]; cbn [value Result_bind].
  2:{ split.
      - split; [intros [ci H]; discriminate H|intros (_ & [g Hg] & _); discriminate Hg].
      - intros ci H; discriminate H. }
  destruct (transferFamily indices) as [t|]; cbn [value Result_bind].
  2:{ split.
      - split; [intros [ci H]; discriminate H|intros (_ & _ & [t Ht]); discriminate Ht].
      - intros ci H; discriminate H. }
  split.
  - split; [intros _|intros _; eexists; reflexivity].
    split; [exact Hformats|]. split; eexists; reflexivity.
  - intros ci H. injection H as <-. simpl.
    exists g, t. split; [reflexivity|]. split; [reflexivity|].
    case_bool_decide as Heq; simpl.
    + injection Heq as ->. split; [tauto|].
      split; [intros (Hmode & _); discriminate|intros Hne; contradiction].
    + assert (g <> t) by congruence.
      split; [split; [intros (Hmode & _); discriminate|contradiction]|tauto].
Qed.

Lemma createSwapChain_sharing_mode_witness :
  (exists createInfo,
      createSwapChain_createInfo (example_support 0) (800, 600) (example_indices 1 1)
        = Ok createInfo
      /\ imageSharingMode createInfo = VK_SHARING_MODE_EXCLUSIVE
      /\ queueFamilyIndexCount createInfo = 0
      /\ pQueueFamilyIndices createInfo = None)
  /\ (exists createInfo,
        createSwapChain_createInfo (example_support 0) (800, 600) (example_indices 0 1)
          = Ok createInfo
        /\ imageSharingMode createInfo = VK_SHARING_MODE_CONCURRENT
        /\ queueFamilyIndexCount createInfo = 2
        /\ pQueueFamilyIndices createInfo = Some [0%nat; 1%nat]).
Proof.
  split.
  - destruct (createSwapChain_sharing_mode (example_support 0) (800, 600) (example_indices 1 1))
      as [[_ Hbuilds] Hmode].
    destruct Hbuilds as [createInfo Hci].
    { split; [discriminate|]. split; eexists; reflexivity. }
    exists createInfo. split; [exact Hci|].
    destruct (Hmode createInfo Hci) as (g & t & Hg & Ht & Hexclusive & _).
    injection Hg as <-. injection Ht as <-. apply Hexclusive. reflexivity.
  - destruct (createSwapChain_sharing_mode (example_support 0) (800, 600) (example_indices 0 1))
      as [[_ Hbuilds] Hmode].
    destruct Hbuilds as [createInfo Hci].
    { split; [discriminate|]. split; eexists; reflexivity. }
    exists createInfo. split; [exact Hci|].
    destruct (Hmode createInfo Hci) as (g & t & Hg & Ht & _ & Hconcurrent).
    injection Hg as <-. injection Ht as <-. apply Hconcurrent. discriminate.
Defined.

(** ** Image layout transitions *)

Module ImageBufferFacts.
Import ImageBuffer.

Lemma supported_transition_submits (this : t) (toLayout : Z) :
  supported (imageLayout this) toLayout ->
  exists queueOperation sourceStage destinationStage barrier,
    transitionImageLayout this toLayout =
      ([beginCommandBuffer queueOperation;
        vkCmdPipelineBarrier sourceStage destinationStage barrier;
        endCommandBuffer],
       Ok (with_layout this toLayout))
    /\ oldLayout barrier = imageLayout this /\ newLayout barrier = toLayout.
Proof.
  unfold supported, transitionImageLayout.
  intros [[-> ->] | [[-> ->] | [-> ->]]]; simpl;
    do 4 eexists; (split; [reflexivity|split; reflexivity]).
Qed.

(** C4.  A transition whose (from, to) layout pair is none of the three
    supported pairs fails with the unsupported-transition error and
    issues no command: no command buffer is begun, no barrier recorded,
    nothing submitted. *)
Theorem unsupported_transition_throws (this : t) (toLayout : Z) :
  ~ supported (imageLayout this) toLayout ->
  transitionImageLayout this toLayout = ([], Throw "unsupported layout transition!").
Proof.
  unfold supported, transitionImageLayout. intros Hns.
  destruct (Z.eqb_spec (imageLayout this) VK_IMAGE_LAYOUT_UNDEFINED) as [Hu|Hu];
    destruct (Z.eqb_spec toLayout VK_IMAGE_LAYOUT_TRANSFER_DST_OPTIMAL) as [Ht|Ht];
    destruct (Z.eqb_spec (imageLayout this) VK_IMAGE_LAYOUT_TRANSFER_DST_OPTIMAL) as [Hd|Hd];
    destruct (Z.eqb_spec toLayout VK_IMAGE_LAYOUT_SHADER_READ_ONLY_OPTIMAL) as [Hs|Hs];
    destruct (Z.eqb_spec toLayout VK_IMAGE_LAYOUT_DEPTH_STENCIL_ATTACHMENT_OPTIMAL) as [Ha|Ha];
    simpl; try reflexivity; exfalso; apply Hns; tauto.
Qed.

Lemma unsupported_transition_throws_witness :
  transitionImageLayout shader_read_only_image VK_IMAGE_LAYOUT_UNDEFINED
  = ([], Throw "unsupported layout transition!").
Proof.
  apply unsupported_transition_throws.
  unfold supported; simpl.
  intros [[H _] | [[H _] | [H _]]]; discriminate H.
Defined.

End ImageBufferFacts.

(** ** Queue family selection *)

Lemma visit_family_slots (device : PhysicalDevice) (i : nat)
    (queueFamily : VkQueueFamilyProperties) :
  queueFamilies device !! i = Some queueFamily ->
  visit_family device i queueFamily (slots_after device i) = slots_after device (S i).
Proof.
  intros Hi.
  assert (Hg : graphics_at device i = graphics_capable queueFamily)
    by (unfold graphics_at; rewrite Hi; reflexivity).
  assert (Ht : transfer_at device i = transfer_only queueFamily)
    by (unfold transfer_at; rewrite Hi; reflexivity).
  assert (Hp : present_at device i = surfaceSupport device i)
    by (unfold present_at; rewrite Hi; reflexivity).
  unfold visit_family, slots_after. cbn [last_index_below]. rewrite Hg, Ht, Hp.
  destruct (surfaceSupport device i), (graphics_capable queueFamily),
    (transfer_only queueFamily); reflexivity.
Qed.

(** A family passes at most one of the graphics and transfer tests. *)
Lemma graphics_capable_not_transfer_only (queueFamily : VkQueueFamilyProperties) :
  graphics_capable queueFamily = true -> transfer_only queueFamily = false.
Proof.
  unfold graphics_capable, transfer_only. intros Hg.
  apply Z.eqb_eq in Hg. apply andb_false_iff. right. apply Z.eqb_neq.
  intros Hz.
  assert (Hbit : Z.testbit (Z.land (queueFlags queueFamily) graphicsQueueflags) 0 = true)
    by (rewrite Hg; reflexivity).
  rewrite Z.land_spec in Hbit. apply andb_true_iff in Hbit as [Hbit _].
  assert (Hbit0 : Z.testbit (Z.land (queueFlags queueFamily) VK_QUEUE_GRAPHICS_BIT) 0 = false)
    by (rewrite Hz; reflexivity).
  rewrite Z.land_spec, Hbit in Hbit0. discriminate Hbit0.
Qed.

Lemma last_index_below_Some (p : nat -> bool) (n i : nat) :
  last_index_below p n = Some i -> p i = true /\ (i < n)%nat.
Proof.
  induction n as [|n IH]; simpl; [discriminate|].
  destruct (p n) eqn:Hp.
  - intros H; injection H as <-. split; [exact Hp|lia].
  - intros H. destruct (IH H). split; [assumption|lia].
Qed.

Lemma last_index_below_last (p : nat -> bool) (n i j : nat) :
  last_index_below p n = Some i -> (i < j < n)%nat -> p j = false.
Proof.
  induction n as [|n IH]; simpl; [discriminate|].
  destruct (p n) eqn:Hp.
  - intros H; injection H as <-. lia.
  - intros H Hj. destruct (Nat.eq_dec j n) as [->|Hne]; [exact Hp|].
    apply IH; [exact H|lia].
Qed.

Lemma last_index_below_None (p : nat -> bool) (n j : nat) :
  last_index_below p n = None -> (j < n)%nat -> p j = false.
Proof.
  induction n as [|n IH]; simpl; [lia|].
  destruct (p n) eqn:Hp; [discriminate|].
  intros H Hj. destruct (Nat.eq_dec j n) as [->|Hne]; [exact Hp|].
  apply IH; [exact H|lia].
Qed.

(** What the loop computes when it is entered at family [i] with the slots
    of the families below [i]. *)
Lemma findQueueFamilies_loop_spec (device : PhysicalDevice) (rest : list VkQueueFamilyProperties) :
  forall (i : nat) (found : QueueFamilyIndices) (visited : list nat),
    (forall k, rest !! k = queueFamilies device !! (i + k)%nat) ->
    findQueueFamilies_loop device i rest (slots_after device i) = (found, visited) ->
    visited = seq i (length visited)
    /\ (length visited <= length rest)%nat
    /\ found = slots_after device (i + length visited)
    /\ (forall m, (i < m < i + length visited)%nat -> isComplete (slots_after device m) = false)
    /\ ((length visited < length rest)%nat -> isComplete found = true).
Proof.
  induction rest as [|queueFamily rest IH]; intros i found visited Hrest; simpl.
  - intros H; injection H as <- <-; simpl. rewrite Nat.add_0_r.
    repeat split; try reflexivity; intros; lia.
  - assert (Hi : queueFamilies device !! i = Some queueFamily).
    { rewrite <- (Nat.add_0_r i) at 1. rewrite <- Hrest. reflexivity. }
    rewrite (visit_family_slots _ _ _ Hi).
    destruct (isComplete (slots_after device (S i))) eqn:Hc.
    + intros H; injection H as <- <-; simpl.
      rewrite Nat.add_1_r.
      repeat split; try reflexivity; try lia; intros; try lia; exact Hc.
    + destruct (findQueueFamilies_loop device (S i) rest (slots_after device (S i)))
        as [found' visited'] eqn:Hloop.
      intros H; injection H as <- <-.
      destruct (IH (S i) found' visited') as (Hseq & Hlen & Hfound & Hbefore & Hstop).
      { intros k. replace (S i + k)%nat with (i + S k)%nat by lia.
        rewrite <- Hrest. reflexivity. }
      { exact Hloop. }
      simpl. rewrite <- Hseq. rewrite <- Nat.add_succ_comm.
      split; [reflexivity|]. split; [lia|]. split; [exact Hfound|].
      split.
      * intros m Hm. destruct (Nat.eq_dec m (S i)) as [->|Hne]; [exact Hc|].
        apply Hbefore. lia.
      * intros Hlt. apply Hstop. lia.
Qed.

Lemma findQueueFamilies_loop_visits (device : PhysicalDevice) (i : nat)
    (queueFamily : VkQueueFamilyProperties) (rest : list VkQueueFamilyProperties)
    (indices found : QueueFamilyIndices) (visited : list nat) :
  findQueueFamilies_loop device i (queueFamily :: rest) indices = (found, visited) ->
  (0 < length visited)%nat.
Proof.
  simpl. destruct (isComplete (visit_family device i queueFamily indices)).
  - intros H; injection H as <- <-. simpl; lia.
  - destruct (findQueueFamilies_loop device (S i) rest _) as [found' visited'].
    intros H; injection H as <- <-. simpl; lia.
Qed.

(** The scan as a whole: it visits the families 0, 1, ..., n-1 for some
    n >= 1, leaves in each slot the last visited family that passed the
    slot's test, and n is the first count at which all three slots are
    filled, or the number of families when that never happens. *)
Lemma findQueueFamilies_scan_spec (device : PhysicalDevice)
    (found : QueueFamilyIndices) (visited : list nat) :
  findQueueFamilies_scan device = Ok (found, visited) ->
  visited = seq 0 (length visited)
  /\ (0 < length visited <= length (queueFamilies device))%nat
  /\ found = slots_after device (length visited)
  /\ (forall m, (0 < m < length visited)%nat -> isComplete (slots_after device m) = false)
  /\ ((length visited < length (queueFamilies device))%nat -> isComplete found = true).
Proof.
  unfold findQueueFamilies_scan.
  destruct (queueFamilies device) as [|queueFamily rest] eqn:Hfams;
    [simpl; discriminate|].
  cbn [length Nat.eqb]. intros Hok.
  assert (H : findQueueFamilies_loop device 0 (queueFamily :: rest) no_indices
              = (found, visited)) by congruence.
  clear Hok.
  pose proof (findQueueFamilies_loop_visits _ _ _ _ _ _ _ H) as Hpos.
  change no_indices with (slots_after device 0) in H.
  apply findQueueFamilies_loop_spec in H.
  - simpl in H. destruct H as (Hseq & Hlen & Hfound & Hbefore & Hstop).
    repeat split; auto; lia.
  - intros k. rewrite Hfams. reflexivity.
Qed.

Lemma findQueueFamilies_scan_of (device : PhysicalDevice) (found : QueueFamilyIndices) :
  findQueueFamilies device = Ok found ->
  exists visited, findQueueFamilies_scan device = Ok (found, visited).
Proof.
  unfold findQueueFamilies.
  destruct (findQueueFamilies_scan device) as [[found' visited]| |]; simpl; try discriminate.
  intros H; injection H as <-. exists visited. reflexivity.
Qed.

(** C3 fails as stated: with two graphics-capable families the second one
    is selected, and the present slot ends on family 2 though family 0 can
    present. *)
Lemma first_match_does_not_win : ~ first_match_wins four_family_device.
Proof.
  intros H. destruct (H _ eq_refl) as (Hg & _). vm_compute in Hg. discriminate Hg.
Qed.

(** C3, amended.  The scan visits the families in order from 0 and stops
    as soon as all three slots are filled (or at the last family); for each
    of the three tests the family selected is the LAST visited one that
    passes it, since a later match overwrites an earlier one. *)
Theorem findQueueFamilies_last_match_wins (device : PhysicalDevice)
    (found : QueueFamilyIndices) (visited : list nat) :
  findQueueFamilies_scan device = Ok (found, visited) ->
  visited = seq 0 (length visited)
  /\ (0 < length visited <= length (queueFamilies device))%nat
  /\ graphicsFamily found = last_index_below (graphics_at device) (length visited)
  /\ transferFamily found = last_index_below (transfer_at device) (length visited)
  /\ presentFamily found = last_index_below (present_at device) (length visited)
  /\ (forall m, (0 < m < length visited)%nat -> isComplete (slots_after device m) = false)
  /\ ((length visited < length (queueFamilies device))%nat -> isComplete found = true).
Proof.
  intros H. apply findQueueFamilies_scan_spec in H.
  destruct H as (Hseq & Hlen & -> & Hbefore & Hstop).
  repeat split; auto; lia.
Qed.

Lemma findQueueFamilies_last_match_wins_witness :
  exists found,
    findQueueFamilies_scan four_family_device = Ok (found, [0; 1; 2]%nat)
    /\ graphicsFamily found = Some 1%nat
    /\ transferFamily found = Some 2%nat
    /\ presentFamily found = Some 2%nat.
Proof.
  eexists. split; [reflexivity|].
  destruct (findQueueFamilies_last_match_wins four_family_device _ _ eq_refl)
    as (_ & _ & Hg & Ht & Hp & _).
  rewrite Hg, Ht, Hp. repeat split; reflexivity.
Defined.

(** C2 fails as stated: the one family supports graphics, transfer and
    presentation, there is no transfer-only family, and yet the transfer
    index stays empty and the selection is not complete. *)
Lemma combined_family_leaves_transfer_unset :
  graphics_at combined_family_device 0 = true
  /\ present_at combined_family_device 0 = true
  /\ Z.land 15 VK_QUEUE_TRANSFER_BIT = VK_QUEUE_TRANSFER_BIT
  /\ transfer_at combined_family_device 0 = false
  /\ ~ resolves_all_to_family_0 combined_family_device.
Proof.
  repeat split; try reflexivity.
  intros (found & Hfound & _ & Ht & _).
  vm_compute in Hfound. injection Hfound as <-. discriminate Ht.
Qed.

(** C2, amended.  For a device whose only queue family is graphics-capable
    and can present, the graphics and present indices resolve to that
    family, the transfer index stays empty and [isComplete] is false.  In
    general the graphics and transfer indices never alias: the transfer
    test excludes every family with the graphics bit. *)
Theorem findQueueFamilies_single_combined_family (queueFamily : VkQueueFamilyProperties)
    (support : nat -> bool) :
  graphics_capable queueFamily = true ->
  support 0%nat = true ->
  let found :=
    {| graphicsFamily := Some 0%nat; transferFamily := None; presentFamily := Some 0%nat |} in
  findQueueFamilies {| queueFamilies := [queueFamily]; surfaceSupport := support |} = Ok found
  /\ isComplete found = false
  /\ (forall device found' g t,
        findQueueFamilies device = Ok found' ->
        graphicsFamily found' = Some g -> transferFamily found' = Some t -> g <> t).
Proof.
  intros Hg Hp found.
  split; [|split; [reflexivity|]].
  - unfold findQueueFamilies, findQueueFamilies_scan; simpl.
    unfold visit_family; simpl. rewrite Hp, Hg.
    rewrite (graphics_capable_not_transfer_only _ Hg). reflexivity.
  - intros device found' g t Hfound Hgf Htf <-.
    apply findQueueFamilies_scan_of in Hfound as [visited Hscan].
    apply findQueueFamilies_scan_spec in Hscan as (_ & _ & -> & _).
    simpl in Hgf, Htf.
    apply last_index_below_Some in Hgf as [Hgf _].
    apply last_index_below_Some in Htf as [Htf _].
    unfold graphics_at in Hgf. unfold transfer_at in Htf.
    destruct (queueFamilies device !! g) as [q|]; [|discriminate].
    rewrite (graphics_capable_not_transfer_only _ Hgf) in Htf. discriminate Htf.
Qed.

Lemma findQueueFamilies_single_combined_family_witness :
  findQueueFamilies combined_family_device
  = Ok {| graphicsFamily := Some 0%nat; transferFamily := None; presentFamily := Some 0%nat |}.
Proof.
  apply (findQueueFamilies_single_combined_family (family 15) (fun _ => true)); reflexivity.
Defined.

(** ** The draw operation *)

(** *** Evaluating the monad *)

Lemma prepend_nil {A} (o : Outcome A) : prepend [] o = o.
Proof. destruct o; reflexivity. Qed.

Lemma prepend_prepend {A} (es es' : list Event) (o : Outcome A) :
  prepend es (prepend es' o) = prepend (es ++ es') o.
Proof. unfold prepend; simpl. rewrite app_assoc. reflexivity. Qed.

Lemma bind_bind {A B C} (m : M A) (k : A -> M B) (k' : B -> M C) (ctx : GraphicsContext) :
  bind (bind m k) k' ctx = bind m (fun a => bind (k a) k') ctx.
Proof.
  unfold bind. destruct (m ctx) as [[a| | | |] c es]; simpl; try reflexivity.
  destruct (k a c) as [[b| | | |] c' es']; simpl; try reflexivity.
  rewrite app_assoc. reflexivity.
Qed.

Lemma bind_ret {A B} (a : A) (k : A -> M B) (ctx : GraphicsContext) :
  bind (ret a) k ctx = k a ctx.
Proof. unfold bind, ret; simpl. apply (prepend_nil (k a ctx)). Qed.

Lemma bind_get {B} (k : GraphicsContext -> M B) (ctx : GraphicsContext) :
  bind get k ctx = k ctx ctx.
Proof. unfold bind, get; simpl. apply (prepend_nil (k ctx ctx)). Qed.

Lemma bind_modify {B} (f : GraphicsContext -> GraphicsContext) (k : unit -> M B)
    (ctx : GraphicsContext) :
  bind (modify f) k ctx = k tt (f ctx).
Proof. unfold bind, modify; simpl. apply (prepend_nil (k tt (f ctx))). Qed.

Lemma bind_emit {B} (e : Event) (k : unit -> M B) (ctx : GraphicsContext) :
  bind (emit e) k ctx = prepend [e] (k tt ctx).
Proof. reflexivity. Qed.

Lemma bind_stop_Return {A B} (k : A -> M B) (ctx : GraphicsContext) :
  bind (stop Return) k ctx = {| exit := Return; context := ctx; events := [] |}.
Proof. reflexivity. Qed.

Lemma bind_stop_Hang {A B} (k : A -> M B) (ctx : GraphicsContext) :
  bind (stop Hang) k ctx = {| exit := Hang; context := ctx; events := [] |}.
Proof. reflexivity. Qed.

Lemma bind_stop_UB {A B} (k : A -> M B) (ctx : GraphicsContext) :
  bind (stop UB) k ctx = {| exit := UB; context := ctx; events := [] |}.
Proof. reflexivity. Qed.

Lemma bind_throw {A B} (level : LogLevel) (what : string) (k : A -> M B)
    (ctx : GraphicsContext) :
  bind (throw level what) k ctx
  = {| exit := Thrown what; context := ctx; events := [EvLog level what] |}.
Proof. reflexivity. Qed.

Lemma throw_outcome {A} (level : LogLevel) (what : string) (ctx : GraphicsContext) :
  @throw A level what ctx
  = {| exit := Thrown what; context := ctx; events := [EvLog level what] |}.
Proof. reflexivity. Qed.

Lemma prepend_outcome {A} (es es' : list Event) (e : Exit A) (c : GraphicsContext) :
  prepend es {| exit := e; context := c; events := es' |}
  = {| exit := e; context := c; events := es ++ es' |}.
Proof. reflexivity. Qed.

(** One step of evaluation of a computation applied to a context. *)
Ltac run_step :=
  first
    [ rewrite bind_bind
    | rewrite bind_ret
    | rewrite bind_get
    | rewrite bind_modify
    | rewrite bind_emit
    | rewrite bind_stop_Return
    | rewrite bind_stop_Hang
    | rewrite bind_stop_UB
    | rewrite bind_throw
    | rewrite throw_outcome
    | rewrite prepend_prepend
    | rewrite prepend_outcome ];
  cbv beta.

Ltac run_monad := repeat run_step.

(** *** The stages of [Draw] *)

Lemma vkWaitForFences_outcome (slot : nat) (ctx : GraphicsContext) :
  vkWaitForFences slot ctx =
  match inFlightFences ctx !! slot with
  | Some Signaled =>
      {| exit := Normal tt; context := ctx; events := [EvWaitForFences slot false] |}
  | Some Pending =>
      {| exit := Normal tt; context := with_fence slot Signaled ctx;
         events := [EvWaitForFences slot true] |}
  | Some Unsignaled =>
      {| exit := Hang; context := ctx; events := [EvWaitForFences slot true] |}
  | Some VK_NULL_HANDLE | None =>
      {| exit := UB; context := ctx; events := [] |}
  end.
Proof.
  unfold vkWaitForFences. rewrite bind_get.
  destruct (inFlightFences ctx !! slot) as [[]|]; reflexivity.
Qed.

(** The acquire stage never leaves [Draw]: whatever [vkAcquireNextImageKHR]
    returns, it falls through to the next stage, after a log line when the
    result is not [VK_SUCCESS]. *)
Lemma Draw_acquire_outcome (drv : Driver) (slot : nat) (ctx : GraphicsContext) :
  Draw_acquire drv slot ctx =
  {| exit := Normal (acquiredImageIndex drv);
     context := ctx;
     events :=
       EvAcquireNextImage slot ::
       if negb (vkAcquireNextImageKHR drv =? VK_SUCCESS)
       then [EvLog LogError "failed to acquireNextImage!"]
       else [] |}.
Proof.
  unfold Draw_acquire.
  destruct (Z.eqb_spec (vkAcquireNextImageKHR drv) VK_SUCCESS) as [->|Hne]; simpl;
    reflexivity.
Qed.

(** [recreateSwapChain] leaves the frame context as it is, and how it
    ends does not depend on that context. *)
Lemma recreateSwapChain_eq (drv : Driver) (ctx : GraphicsContext) :
  recreateSwapChain drv ctx
  = {| exit := fst (recreateSwapChain_flat drv);
       context := ctx;
       events := snd (recreateSwapChain_flat drv) |}.
Proof.
  unfold recreateSwapChain, recreateSwapChain_flat. rewrite bind_emit.
  destruct (recreateSwapChain_wait (glfwGetFramebufferSize drv)) as [[size later]|];
    [|reflexivity].
  rewrite !bind_emit, prepend_prepend.
  destruct (createSwapChain _ _ _ _) as [swapChain| |]; [|reflexivity..].
  cbn [Result_bind]. unfold lift at 1. rewrite bind_ret.
  destruct (createImageViews _ _ _) as [views| |]; [|reflexivity..].
  cbn [Result_bind]. unfold lift at 1. rewrite bind_ret.
  destruct (createFramebuffers _ _ _) as [framebuffers| |]; reflexivity.
Qed.

(** [recreateSwapChain] returns, throws, hangs on a minimised window or
    reads an empty format list; it starts with its own event and waits on
    no fence. *)
Lemma recreateSwapChain_flat_spec (drv : Driver) :
  (fst (recreateSwapChain_flat drv) = Normal tt
   \/ (exists what, fst (recreateSwapChain_flat drv) = Thrown what)
   \/ fst (recreateSwapChain_flat drv) = Hang
   \/ fst (recreateSwapChain_flat drv) = UB)
  /\ (snd (recreateSwapChain_flat drv) = [EvRecreateSwapChain]
      \/ snd (recreateSwapChain_flat drv)
         = [EvRecreateSwapChain; EvDeviceWaitIdle; EvCleanupSwapChain]).
Proof.
  unfold recreateSwapChain_flat.
  destruct (recreateSwapChain_wait (glfwGetFramebufferSize drv)) as [[size later]|];
    cbn [fst snd]; [|auto].
  split; [|auto].
  destruct (Result_bind _ _) as [[]| |]; eauto.
Qed.

Lemma Draw_present_outcome (drv : Driver) (imageIndex : nat) (ctx : GraphicsContext) :
  Draw_present drv imageIndex ctx =
  if (vkQueuePresentKHR drv =? VK_ERROR_OUT_OF_DATE_KHR)
     || (vkQueuePresentKHR drv =? VK_SUBOPTIMAL_KHR)
     || framebufferResized ctx
  then {| exit := fst (recreateSwapChain_flat drv);
          context := with_framebufferResized false ctx;
          events := EvQueuePresent imageIndex :: snd (recreateSwapChain_flat drv) |}
  else if negb (vkQueuePresentKHR drv =? VK_SUCCESS)
  then {| exit := Thrown "failed to present swap chain image!";
          context := ctx;
          events := [EvQueuePresent imageIndex;
                     EvLog LogFatal "failed to present swap chain image!"] |}
  else {| exit := Normal tt; context := ctx; events := [EvQueuePresent imageIndex] |}.
Proof.
  unfold Draw_present. run_monad.
  destruct ((vkQueuePresentKHR drv =? VK_ERROR_OUT_OF_DATE_KHR)
            || (vkQueuePresentKHR drv =? VK_SUBOPTIMAL_KHR)
            || framebufferResized ctx).
  - run_monad. rewrite recreateSwapChain_eq. reflexivity.
  - destruct (negb (vkQueuePresentKHR drv =? VK_SUCCESS)); reflexivity.
Qed.

Lemma Draw_submit_outcome (drv : Driver) (slot imageIndex : nat) (ctx : GraphicsContext)
    (f : Fence) :
  inFlightFences ctx !! slot = Some f -> f <> VK_NULL_HANDLE ->
  Draw_submit drv slot imageIndex ctx =
  if negb (vkBeginCommandBuffer drv =? VK_SUCCESS) then
    {| exit := Thrown "failed to begin recording command buffer!";
       context := with_fence slot Unsignaled ctx;
       events := [EvResetFences slot; EvResetCommandBuffer slot;
                  EvLog LogFatal "failed to begin recording command buffer!"] |}
  else if negb (vkEndCommandBuffer drv =? VK_SUCCESS) then
    {| exit := Thrown "failed to record command buffer!";
       context := with_fence slot Unsignaled ctx;
       events := [EvResetFences slot; EvResetCommandBuffer slot;
                  EvRecordCommandBuffer slot imageIndex;
                  EvLog LogFatal "failed to record command buffer!"] |}
  else if negb (vkQueueSubmit drv =? VK_SUCCESS) then
    {| exit := Thrown "failed to submit draw command buffer!";
       context := with_fence slot Unsignaled ctx;
       events := submit_events slot imageIndex
                 ++ [EvLog LogFatal "failed to submit draw command buffer!"] |}
  else
    {| exit := Normal tt;
       context := with_fence slot Pending (with_fence slot Unsignaled ctx);
       events := submit_events slot imageIndex |}.
Proof.
  intros Hf Hnull. unfold Draw_submit, vkResetFences, recordCommandBuffer.
  run_monad. rewrite Hf.
  assert (Hreset : forall (m1 m2 : M unit),
             match f with VK_NULL_HANDLE => m1 | _ => m2 end = m2)
    by (intros; destruct f; congruence).
  rewrite Hreset. clear Hreset. run_monad.
  destruct (negb (vkBeginCommandBuffer drv =? VK_SUCCESS)); run_monad; [reflexivity|].
  destruct (negb (vkEndCommandBuffer drv =? VK_SUCCESS)); run_monad; [reflexivity|].
  destruct (negb (vkQueueSubmit drv =? VK_SUCCESS)); run_monad; reflexivity.
Qed.

(** *** [Draw] in one piece *)

Section DrawOutcome.

Variable MAX_FRAMES_IN_FLIGHT : nat.

Lemma bind_Normal_outcome {A B} (m : M A) (k : A -> M B) (ctx c : GraphicsContext)
    (a : A) (es : list Event) :
  m ctx = {| exit := Normal a; context := c; events := es |} ->
  bind m k ctx = prepend es (k a c).
Proof. intros H. unfold bind. rewrite H. reflexivity. Qed.

Lemma bind_Thrown_outcome {A B} (m : M A) (k : A -> M B) (ctx c : GraphicsContext)
    (what : string) (es : list Event) :
  m ctx = {| exit := Thrown what; context := c; events := es |} ->
  bind m k ctx = {| exit := Thrown what; context := c; events := es |}.
Proof. intros H. unfold bind. rewrite H. reflexivity. Qed.

Lemma bind_Hang_outcome {A B} (m : M A) (k : A -> M B) (ctx c : GraphicsContext)
    (es : list Event) :
  m ctx = {| exit := Hang; context := c; events := es |} ->
  bind m k ctx = {| exit := Hang; context := c; events := es |}.
Proof. intros H. unfold bind. rewrite H. reflexivity. Qed.

Lemma bind_UB_outcome {A B} (m : M A) (k : A -> M B) (ctx c : GraphicsContext)
    (es : list Event) :
  m ctx = {| exit := UB; context := c; events := es |} ->
  bind m k ctx = {| exit := UB; context := c; events := es |}.
Proof. intros H. unfold bind. rewrite H. reflexivity. Qed.

Lemma Draw_advance_outcome (ctx : GraphicsContext) :
  Draw_advance MAX_FRAMES_IN_FLIGHT ctx
  = {| exit := Normal tt; context := next_frame MAX_FRAMES_IN_FLIGHT ctx; events := [] |}.
Proof. unfold Draw_advance. rewrite bind_get. reflexivity. Qed.

Lemma Draw_stages_after_wait (drv : Driver) (slot : nat) (ctx : GraphicsContext) :
  inFlightFences ctx !! slot = Some Signaled ->
  (imageIndex <- Draw_acquire drv slot ;;
   Draw_submit drv slot imageIndex ;;
   Draw_present drv imageIndex ;;
   Draw_advance MAX_FRAMES_IN_FLIGHT) ctx
  = Draw_after_wait MAX_FRAMES_IN_FLIGHT drv slot ctx.
Proof.
  intros Hf. unfold Draw_after_wait.
  rewrite (bind_Normal_outcome _ _ _ _ _ _ (Draw_acquire_outcome drv slot ctx)).
  rewrite Draw_acquire_outcome. cbn [events]. f_equal.
  assert (Hs := Draw_submit_outcome drv slot (acquiredImageIndex drv) ctx Signaled Hf).
  specialize (Hs ltac:(discriminate)).
  destruct (negb (vkBeginCommandBuffer drv =? VK_SUCCESS)).
  { rewrite (bind_Thrown_outcome _ _ _ _ _ _ Hs). reflexivity. }
  destruct (negb (vkEndCommandBuffer drv =? VK_SUCCESS)).
  { rewrite (bind_Thrown_outcome _ _ _ _ _ _ Hs). reflexivity. }
  destruct (negb (vkQueueSubmit drv =? VK_SUCCESS)).
  { rewrite (bind_Thrown_outcome _ _ _ _ _ _ Hs). reflexivity. }
  rewrite (bind_Normal_outcome _ _ _ _ _ _ Hs). clear Hs.
  set (submitted := with_fence slot Pending (with_fence slot Unsignaled ctx)).
  assert (Hp := Draw_present_outcome drv (acquiredImageIndex drv) submitted).
  unfold needs_recreation.
  destruct ((vkQueuePresentKHR drv =? VK_ERROR_OUT_OF_DATE_KHR)
            || (vkQueuePresentKHR drv =? VK_SUBOPTIMAL_KHR)
            || framebufferResized submitted).
  { destruct (recreateSwapChain_flat_spec drv) as [Hexit _].
    destruct (recreateSwapChain_flat drv) as [e es]. cbn [fst snd] in *.
    destruct Hexit as [->|[[what ->]|[->| ->]]].
    - rewrite (bind_Normal_outcome _ _ _ _ _ _ Hp), Draw_advance_outcome.
      unfold prepend; simpl. rewrite ?app_nil_r, <- ?app_assoc. reflexivity.
    - rewrite (bind_Thrown_outcome _ _ _ _ _ _ Hp).
      unfold prepend; simpl. rewrite ?app_nil_r, <- ?app_assoc. reflexivity.
    - rewrite (bind_Hang_outcome _ _ _ _ _ Hp).
      unfold prepend; simpl. rewrite ?app_nil_r, <- ?app_assoc. reflexivity.
    - rewrite (bind_UB_outcome _ _ _ _ _ Hp).
      unfold prepend; simpl. rewrite ?app_nil_r, <- ?app_assoc. reflexivity. }
  destruct (negb (vkQueuePresentKHR drv =? VK_SUCCESS)).
  { rewrite (bind_Thrown_outcome _ _ _ _ _ _ Hp).
    unfold prepend; simpl. rewrite ?app_nil_r, <- ?app_assoc. reflexivity. }
  rewrite (bind_Normal_outcome _ _ _ _ _ _ Hp), Draw_advance_outcome.
  unfold prepend; simpl. rewrite ?app_nil_r, <- ?app_assoc. reflexivity.
Qed.

(** After the wait [Draw] never ends by a [return] statement: it falls off
    its end or throws, or ends the way [recreateSwapChain] does. *)
Lemma Draw_after_wait_exit (drv : Driver) (slot : nat) (ctx : GraphicsContext) :
  exit (Draw_after_wait MAX_FRAMES_IN_FLIGHT drv slot ctx) <> Return.
Proof.
  unfold Draw_after_wait. cbn [prepend exit].
  destruct (negb (vkBeginCommandBuffer drv =? VK_SUCCESS)); [discriminate|].
  destruct (negb (vkEndCommandBuffer drv =? VK_SUCCESS)); [discriminate|].
  destruct (negb (vkQueueSubmit drv =? VK_SUCCESS)); [discriminate|].
  cbn [prepend exit].
  destruct (needs_recreation drv _).
  - cbn [exit]. destruct (recreateSwapChain_flat_spec drv) as [Hexit _].
    destruct Hexit as [H|[[what H]|[H|H]]]; rewrite H; discriminate.
  - destruct (negb (vkQueuePresentKHR drv =? VK_SUCCESS)); discriminate.
Qed.

Lemma body_after_wait (es : list Event) (drv : Driver) (slot : nat)
    (ctx : GraphicsContext) :
  {| exit := match exit (prepend es (Draw_after_wait MAX_FRAMES_IN_FLIGHT drv slot ctx)) with
             | Return => Normal tt
             | e => e
             end;
     context := context (prepend es (Draw_after_wait MAX_FRAMES_IN_FLIGHT drv slot ctx));
     events := events (prepend es (Draw_after_wait MAX_FRAMES_IN_FLIGHT drv slot ctx)) |}
  = prepend es (Draw_after_wait MAX_FRAMES_IN_FLIGHT drv slot ctx).
Proof.
  pose proof (Draw_after_wait_exit drv slot ctx) as H.
  destruct (Draw_after_wait MAX_FRAMES_IN_FLIGHT drv slot ctx) as [e c es']. cbn in *.
  destruct e; try reflexivity. contradiction.
Qed.

(** [Draw] computes exactly [Draw_flat]. *)
Lemma Draw_flat_eq (drv : Driver) (ctx : GraphicsContext) :
  Draw MAX_FRAMES_IN_FLIGHT drv ctx = Draw_flat MAX_FRAMES_IN_FLIGHT drv ctx.
Proof.
  unfold Draw, Draw_flat.
  set (slot := currentFrame ctx).
  unfold body. rewrite bind_get. fold slot.
  assert (Hw := vkWaitForFences_outcome slot ctx).
  destruct (inFlightFences ctx !! slot) as [[]|] eqn:Hf.
  - rewrite (bind_UB_outcome _ _ _ _ _ Hw). reflexivity.
  - rewrite (bind_Normal_outcome _ _ _ _ _ _ Hw).
    rewrite (Draw_stages_after_wait drv slot ctx Hf).
    apply body_after_wait.
  - rewrite (bind_Hang_outcome _ _ _ _ _ Hw). reflexivity.
  - rewrite (bind_Normal_outcome _ _ _ _ _ _ Hw).
    rewrite (Draw_stages_after_wait drv slot (with_fence slot Signaled ctx)).
    + apply body_after_wait.
    + simpl. apply list_lookup_insert_eq. eapply lookup_lt_Some. exact Hf.
  - rewrite (bind_UB_outcome _ _ _ _ _ Hw). reflexivity.
Qed.

End DrawOutcome.

(** *** Acquire *)

(** C1 does not hold of the code.  When [vkAcquireNextImageKHR] returns
    anything but [VK_SUCCESS], out-of-date included, [Draw] logs
    "failed to acquireNextImage!" and goes on: it resets the slot's fence,
    records and submits the command buffer and presents, without entering
    [recreateSwapChain] before the submission.  The branch that would
    recreate the swapchain and return sits under [result == VK_SUCCESS] and
    is never taken. *)
Theorem Draw_failed_acquire_still_submits (F : nat) (drv : Driver) (ctx : GraphicsContext) :
  vkAcquireNextImageKHR drv <> VK_SUCCESS ->
  inFlightFences ctx !! currentFrame ctx = Some Signaled ->
  vkBeginCommandBuffer drv = VK_SUCCESS ->
  vkEndCommandBuffer drv = VK_SUCCESS ->
  vkQueueSubmit drv = VK_SUCCESS ->
  let slot := currentFrame ctx in
  exists after,
    events (Draw F drv ctx)
    = ([EvWaitForFences slot false; EvAcquireNextImage slot;
        EvLog LogError "failed to acquireNextImage!";
        EvResetFences slot; EvResetCommandBuffer slot;
        EvRecordCommandBuffer slot (acquiredImageIndex drv);
        EvUpdateUniformBuffer slot; EvQueueSubmit slot;
        EvQueuePresent (acquiredImageIndex drv)] ++ after)%list
    /\ inFlightFences (context (Draw F drv ctx)) !! slot = Some Pending.
Proof.
  intros Ha Hf Hb He Hs slot. rewrite Draw_flat_eq. unfold Draw_flat.
  cbv zeta. rewrite Hf. fold slot. unfold Draw_after_wait. rewrite Draw_acquire_outcome.
  rewrite Hb, He, Hs. cbn [Z.eqb VK_SUCCESS negb].
  apply Z.eqb_neq in Ha. rewrite Ha. cbn [negb events].
  assert (Hlen : (slot < length (inFlightFences ctx))%nat)
    by (eapply lookup_lt_Some; exact Hf).
  assert (Hpending : forall c : GraphicsContext,
             inFlightFences c = <[slot := Pending]> (<[slot := Unsignaled]> (inFlightFences ctx)) ->
             inFlightFences c !! slot = Some Pending).
  { intros c ->. apply list_lookup_insert_eq. rewrite length_insert. exact Hlen. }
  destruct (needs_recreation drv _);
    [destruct (fst (recreateSwapChain_flat drv))|destruct (negb _)];
    eexists; (split; [reflexivity|apply Hpending; reflexivity]).
Qed.

Lemma Draw_failed_acquire_still_submits_witness :
  In (EvQueueSubmit 0)
    (events (Draw 2 (example_driver VK_ERROR_OUT_OF_DATE_KHR VK_SUCCESS) (example_context false)))
  /\ ~ In EvRecreateSwapChain
       (events (Draw 2 (example_driver VK_ERROR_OUT_OF_DATE_KHR VK_SUCCESS)
                  (example_context false))).
Proof.
  destruct (Draw_failed_acquire_still_submits 2
              (example_driver VK_ERROR_OUT_OF_DATE_KHR VK_SUCCESS) (example_context false))
    as (after & Hev & _); try reflexivity; [discriminate|].
  split.
  - rewrite Hev. simpl. tauto.
  - vm_compute. intuition discriminate.
Defined.

(** *** Present *)

Lemma needs_recreation_spec (drv : Driver) (ctx : GraphicsContext) :
  needs_recreation drv ctx = true <-> recreation_due (vkQueuePresentKHR drv) ctx.
Proof.
  unfold needs_recreation, recreation_due.
  rewrite !orb_true_iff, !Z.eqb_eq. tauto.
Qed.

(** C7.  Once [Draw] has called [vkQueuePresentKHR]: if the result is
    out-of-date or suboptimal, or the framebuffer-resized flag is set, the
    flag is cleared and [recreateSwapChain] is entered right after the
    presentation; nothing follows it but its own calls, and [Draw] ends
    the way [recreateSwapChain] does (it returns when the swapchain is
    recreated and throws what the creation functions throw), with the
    flag cleared in either case.  Any other result that is not
    [VK_SUCCESS] makes [Draw] throw, without recreating the swapchain. *)
Theorem Draw_present_result (F : nat) (drv : Driver) (ctx : GraphicsContext) :
  presented (Draw F drv ctx) ->
  let o := Draw F drv ctx in
  let result := vkQueuePresentKHR drv in
  (recreation_due result ctx ->
   framebufferResized (context o) = false
   /\ (exists before imageIndex rest,
         events (recreateSwapChain drv ctx) = EvRecreateSwapChain :: rest
         /\ events o
            = (before ++ [EvQueuePresent imageIndex; EvRecreateSwapChain] ++ rest)%list)
   /\ exit o = exit (recreateSwapChain drv ctx))
  /\ (~ recreation_due result ctx -> result <> VK_SUCCESS ->
      exit o = Thrown "failed to present swap chain image!"
      /\ ~ In EvRecreateSwapChain (events o)).
Proof.
  intros Hpres o result. subst o result. revert Hpres.
  rewrite Draw_flat_eq. unfold presented, Draw_flat.
  set (slot := currentFrame ctx).
  assert (Hgoal : forall (b : bool) (c : GraphicsContext),
             framebufferResized c = framebufferResized ctx ->
             (exists imageIndex,
                 In (EvQueuePresent imageIndex)
                   (events (prepend [EvWaitForFences slot b] (Draw_after_wait F drv slot c)))) ->
             let o := prepend [EvWaitForFences slot b] (Draw_after_wait F drv slot c) in
             (recreation_due (vkQueuePresentKHR drv) ctx ->
              framebufferResized (context o) = false
              /\ (exists before imageIndex rest,
                    events (recreateSwapChain drv ctx) = EvRecreateSwapChain :: rest
                    /\ events o
                       = (before ++ [EvQueuePresent imageIndex; EvRecreateSwapChain]
                          ++ rest)%list)
              /\ exit o = exit (recreateSwapChain drv ctx))
             /\ (~ recreation_due (vkQueuePresentKHR drv) ctx ->
                 vkQueuePresentKHR drv <> VK_SUCCESS ->
                 exit o = Thrown "failed to present swap chain image!"
                 /\ ~ In EvRecreateSwapChain (events o))).
  { intros b c Hflag. unfold Draw_after_wait. rewrite Draw_acquire_outcome.
    cbn [events].
    set (acquire_log := if negb (vkAcquireNextImageKHR drv =? VK_SUCCESS)
                        then [EvLog LogError "failed to acquireNextImage!"] else []).
    assert (Hlog : forall e, In e acquire_log -> exists level what, e = EvLog level what).
    { intros e. subst acquire_log. destruct (negb _); simpl; [|tauto].
      intros [<-|[]]. eauto. }
    assert (Hnot_log : forall es e,
               (forall level what, e <> EvLog level what) ->
               In e (EvAcquireNextImage slot :: acquire_log ++ es) ->
               e = EvAcquireNextImage slot \/ In e es).
    { intros es e Hne [<-|Hin]; [auto|].
      apply in_app_or in Hin as [Hin|Hin]; [|auto].
      destruct (Hlog _ Hin) as (level & what & ->). destruct (Hne level what eq_refl). }
    destruct (negb (vkBeginCommandBuffer drv =? VK_SUCCESS)).
    { intros [i [Hi|Hi]]; [discriminate|]. exfalso.
      apply Hnot_log in Hi; [|discriminate]. simpl in Hi. intuition discriminate. }
    destruct (negb (vkEndCommandBuffer drv =? VK_SUCCESS)).
    { intros [i [Hi|Hi]]; [discriminate|]. exfalso.
      apply Hnot_log in Hi; [|discriminate]. simpl in Hi. intuition discriminate. }
    destruct (negb (vkQueueSubmit drv =? VK_SUCCESS)).
    { intros [i [Hi|Hi]]; [discriminate|]. exfalso.
      apply Hnot_log in Hi; [|discriminate]. simpl in Hi. intuition discriminate. }
    intros _.
    set (submitted := with_fence slot Pending (with_fence slot Unsignaled c)).
    assert (Hdue : needs_recreation drv submitted = true
                   <-> recreation_due (vkQueuePresentKHR drv) ctx).
    { rewrite needs_recreation_spec. unfold recreation_due.
      change (framebufferResized submitted) with (framebufferResized c). rewrite Hflag.
      tauto. }
    destruct (needs_recreation drv submitted).
    - split.
      + intros _. rewrite recreateSwapChain_eq. cbn [prepend exit context events].
        split; [destruct (fst (recreateSwapChain_flat drv)); reflexivity|].
        split; [|reflexivity].
        assert (Hstart : exists rest,
                   snd (recreateSwapChain_flat drv) = EvRecreateSwapChain :: rest).
        { destruct (recreateSwapChain_flat_spec drv) as [_ [H|H]]; rewrite H; eauto. }
        destruct Hstart as [rest Hrest].
        exists (EvWaitForFences slot b :: EvAcquireNextImage slot :: acquire_log
                ++ submit_events slot (acquiredImageIndex drv)),
          (acquiredImageIndex drv), rest.
        split; [exact Hrest|]. rewrite Hrest.
        cbn [app]. rewrite <- !app_assoc. reflexivity.
      + intros Hn. destruct Hn. apply Hdue. reflexivity.
    - assert (Hn : ~ recreation_due (vkQueuePresentKHR drv) ctx)
        by (intros Hd; apply Hdue in Hd; discriminate Hd).
      split; [intros Hd; destruct (Hn Hd)|].
      intros _ Hne. apply Z.eqb_neq in Hne. rewrite Hne. cbn [negb].
      split; [reflexivity|].
      cbn [prepend events app]. intros [Hi|Hi]; [discriminate|].
      apply Hnot_log in Hi; [|discriminate]. simpl in Hi. intuition discriminate. }
  destruct (inFlightFences ctx !! slot) as [[]|].
  - intros [i []].
  - apply Hgoal. reflexivity.
  - intros [i [Hi|[]]]. discriminate.
  - apply Hgoal. reflexivity.
  - intros [i []].
Qed.

Lemma Draw_present_result_witness :
  (framebufferResized
     (context (Draw 2 (example_driver VK_SUCCESS VK_SUBOPTIMAL_KHR) (example_context true)))
   = false
   /\ exit (Draw 2 (example_driver VK_SUCCESS VK_SUBOPTIMAL_KHR) (example_context true))
      = Normal tt)
  /\ (framebufferResized
        (context (Draw 2 (failing_recreation_driver VK_SUCCESS VK_SUCCESS)
                    (example_context true)))
      = false
      /\ exit (Draw 2 (failing_recreation_driver VK_SUCCESS VK_SUCCESS) (example_context true))
         = Thrown "failed to create swap chain").
Proof.
  split.
  - destruct (Draw_present_result 2 (example_driver VK_SUCCESS VK_SUBOPTIMAL_KHR)
                (example_context true)) as [Hdue _].
    + exists 1%nat. vm_compute. tauto.
    + destruct Hdue as (Hflag & _ & Hexit).
      * right. left. reflexivity.
      * split; [exact Hflag|]. rewrite Hexit. reflexivity.
  - destruct (Draw_present_result 2 (failing_recreation_driver VK_SUCCESS VK_SUCCESS)
                (example_context true)) as [Hdue _].
    + exists 1%nat. vm_compute. tauto.
    + destruct Hdue as (Hflag & _ & Hexit).
      * right. right. reflexivity.
      * split; [exact Hflag|]. rewrite Hexit. reflexivity.
Defined.

(** *** The first wait on each slot *)

Lemma Draw_after_wait_no_wait (F : nat) (drv : Driver) (slot : nat) (ctx : GraphicsContext) :
  no_wait (events (Draw_after_wait F drv slot ctx)).
Proof.
  unfold no_wait, Draw_after_wait. rewrite Draw_acquire_outcome.
  assert (Hr : Forall (fun e => is_wait e = false) (snd (recreateSwapChain_flat drv))).
  { destruct (recreateSwapChain_flat_spec drv) as [_ [H|H]]; rewrite H; repeat constructor. }
  destruct (negb (vkAcquireNextImageKHR drv =? VK_SUCCESS));
    destruct (negb (vkBeginCommandBuffer drv =? VK_SUCCESS));
    destruct (negb (vkEndCommandBuffer drv =? VK_SUCCESS));
    destruct (negb (vkQueueSubmit drv =? VK_SUCCESS));
    destruct (needs_recreation drv
                (with_fence slot Pending (with_fence slot Unsignaled ctx)));
    destruct (negb (vkQueuePresentKHR drv =? VK_SUCCESS));
    simpl; repeat first [exact Hr | constructor].
Qed.

Lemma Draw_after_wait_other_fences (F : nat) (drv : Driver) (slot s : nat)
    (ctx : GraphicsContext) :
  s <> slot ->
  inFlightFences (context (Draw_after_wait F drv slot ctx)) !! s = inFlightFences ctx !! s.
Proof.
  intros Hne. unfold Draw_after_wait. cbn [prepend context].
  destruct (negb (vkBeginCommandBuffer drv =? VK_SUCCESS));
    [|destruct (negb (vkEndCommandBuffer drv =? VK_SUCCESS));
      [|destruct (negb (vkQueueSubmit drv =? VK_SUCCESS));
        [|cbn [prepend context]; destruct (needs_recreation drv _);
          [destruct (fst (recreateSwapChain_flat drv))
          |destruct (negb (vkQueuePresentKHR drv =? VK_SUCCESS))]]]];
    simpl; rewrite ?list_lookup_insert_ne by congruence; reflexivity.
Qed.

(** A call of [Draw] either stops at once on an invalid fence, or starts
    with the wait on the current slot's fence, which does not block when
    that fence is signaled, and waits on no other fence. *)
Lemma Draw_first_event (F : nat) (drv : Driver) (ctx : GraphicsContext) :
  (exit (Draw F drv ctx) = UB /\ events (Draw F drv ctx) = [])
  \/ exists f blocked rest,
       inFlightFences ctx !! currentFrame ctx = Some f
       /\ events (Draw F drv ctx) = EvWaitForFences (currentFrame ctx) blocked :: rest
       /\ no_wait rest
       /\ (f = Signaled -> blocked = false).
Proof.
  rewrite Draw_flat_eq. unfold Draw_flat.
  destruct (inFlightFences ctx !! currentFrame ctx) as [[]|].
  - left. split; reflexivity.
  - right. exists Signaled, false, (events (Draw_after_wait F drv (currentFrame ctx) ctx)).
    split; [reflexivity|]. split; [reflexivity|].
    split; [apply Draw_after_wait_no_wait|reflexivity].
  - right. exists Unsignaled, true, []. repeat split; [constructor|discriminate].
  - right. exists Pending, true,
      (events (Draw_after_wait F drv (currentFrame ctx)
                 (with_fence (currentFrame ctx) Signaled ctx))).
    split; [reflexivity|]. split; [reflexivity|].
    split; [apply Draw_after_wait_no_wait|discriminate].
  - left. split; reflexivity.
Qed.

(** [Draw] touches no fence but the current slot's. *)
Lemma Draw_other_fences (F : nat) (drv : Driver) (ctx : GraphicsContext) (s : nat) :
  s <> currentFrame ctx ->
  inFlightFences (context (Draw F drv ctx)) !! s = inFlightFences ctx !! s.
Proof.
  intros Hne. rewrite Draw_flat_eq. unfold Draw_flat.
  destruct (inFlightFences ctx !! currentFrame ctx) as [[]|]; try reflexivity.
  - cbn [prepend context]. apply Draw_after_wait_other_fences. exact Hne.
  - cbn [prepend context]. rewrite Draw_after_wait_other_fences by exact Hne.
    simpl. apply list_lookup_insert_ne. congruence.
Qed.

(** A list that starts with events that are no waits and contains the wait
    [x] splits after those events. *)
Lemma split_after_no_wait (rest tail before after : list Event) (x : Event) :
  no_wait rest -> is_wait x = true ->
  (rest ++ tail = before ++ x :: after)%list ->
  exists before', before = (rest ++ before')%list /\ tail = (before' ++ x :: after)%list.
Proof.
  intros Hrest Hx. revert before.
  induction Hrest as [|r rest Hr Hrest IH]; intros before Heq; simpl in Heq.
  - exists before. split; [reflexivity|exact Heq].
  - destruct before as [|y before]; simpl in Heq.
    + injection Heq as -> _. congruence.
    + injection Heq as -> Heq. destruct (IH _ Heq) as (before' & -> & ->).
      exists before'. split; reflexivity.
Qed.

(** In a run, the first wait on a slot whose fence is signaled (or absent)
    at the start does not block. *)
Lemma run_first_wait (F : nat) (ticks : list Driver) :
  forall (ctx : GraphicsContext) (slot : nat) (blocked : bool) (before after : list Event),
    (forall f, inFlightFences ctx !! slot = Some f -> f = Signaled) ->
    run F ticks ctx = (before ++ EvWaitForFences slot blocked :: after)%list ->
    (forall b, ~ In (EvWaitForFences slot b) before) ->
    blocked = false.
Proof.
  induction ticks as [|drv ticks IH]; intros ctx slot blocked before after Hsig Hrun Hfirst.
  - destruct before; discriminate Hrun.
  - change (run F (drv :: ticks) ctx)
      with (events (Draw F drv ctx)
            ++ match exit (Draw F drv ctx) with
               | Hang | UB => []
               | _ => run F ticks (context (Draw F drv ctx))
               end)%list in Hrun.
    pose proof (Draw_first_event F drv ctx) as Hstart.
    pose proof (Draw_other_fences F drv ctx slot) as Hother.
    generalize dependent (Draw F drv ctx). intros o Hrun Hstart Hother.
    destruct Hstart as [[Hub Hnil]|(f & b & rest & Hf & Hev & Hrest & Hb)].
    + rewrite Hub, Hnil in Hrun. destruct before; discriminate Hrun.
    + rewrite Hev in Hrun. rewrite <- app_comm_cons in Hrun.
      destruct before as [|e before]; cbn [app] in Hrun.
      * injection Hrun as Hslot -> _.
        apply Hb. apply Hsig. rewrite <- Hslot. exact Hf.
      * injection Hrun as <- Hrun.
        assert (Hne : slot <> currentFrame ctx).
        { intros ->. apply (Hfirst b). left. reflexivity. }
        apply split_after_no_wait in Hrun as (before' & -> & Htail);
          [|exact Hrest|reflexivity].
        assert (Hnext : run F ticks (context o)
                        = (before' ++ EvWaitForFences slot blocked :: after)%list).
        { revert Htail. destruct (exit o); intros Htail; try exact Htail;
            destruct before'; discriminate Htail. }
        apply (IH (context o) slot blocked before' after).
        -- intros f' Hf'. apply Hsig. rewrite <- Hother by exact Hne. exact Hf'.
        -- exact Hnext.
        -- intros b' Hin. apply (Hfirst b'). right. apply in_or_app. right. exact Hin.
Qed.

(** *** Sync objects *)

(** When the loop of [createSyncObjects] ends without throwing, every
    slot it visited holds a signaled fence and the others are as before. *)
Lemma createSyncObjects_loop_spec (sem1 sem2 fen : nat -> Z) (slots : list nat) :
  forall (fences created : list Fence),
    createSyncObjects_loop sem1 sem2 fen slots fences = Ok created ->
    length created = length fences
    /\ forall j,
         (In j slots -> (j < length fences)%nat -> created !! j = Some Signaled)
         /\ (~ In j slots -> created !! j = fences !! j).
Proof.
  induction slots as [|i slots IH]; intros fences created; simpl.
  - intros H. injection H as <-. split; [reflexivity|]. intros j. split; tauto.
  - destruct (negb (sem1 i =? VK_SUCCESS) || negb (sem2 i =? VK_SUCCESS)
              || negb (fen i =? VK_SUCCESS)); [discriminate|].
    intros H. apply IH in H as [Hlen Hslots]. rewrite length_insert in Hlen.
    split; [exact Hlen|]. intros j. destruct (Hslots j) as [Hin Hout].
    rewrite length_insert in Hin.
    split.
    + intros [<-|Hj] Hlt.
      * destruct (in_dec Nat.eq_dec i slots) as [Hi|Hi]; [auto|].
        rewrite (Hout Hi). apply list_lookup_insert_eq. exact Hlt.
      * auto.
    + intros Hj. rewrite Hout by tauto.
      apply list_lookup_insert_ne. intros ->. apply Hj. left. reflexivity.
Qed.

Lemma createSyncObjects_signaled (F : nat) (sem1 sem2 fen : nat -> Z) (fences : list Fence) :
  createSyncObjects F sem1 sem2 fen = Ok fences ->
  fences = replicate F Signaled.
Proof.
  unfold createSyncObjects. intros H.
  apply createSyncObjects_loop_spec in H as [Hlen Hslots].
  rewrite length_replicate in Hlen.
  apply list_eq. intros j.
  destruct (Nat.lt_ge_cases j F) as [Hlt|Hge].
  - destruct (Hslots j) as [Hin _].
    rewrite Hin.
    + symmetry. apply lookup_replicate_2. exact Hlt.
    + apply in_seq. lia.
    + rewrite length_replicate. exact Hlt.
  - rewrite !lookup_ge_None_2; [reflexivity| |]; rewrite ?length_replicate; lia.
Qed.

(** C10.  When [createSyncObjects] succeeds every in-flight fence is
    signaled; hence in any run of [Draw] calls that starts from those
    fences, whatever the starting slot and the driver's answers, the first
    wait on each slot's fence returns without blocking. *)
Theorem first_fence_wait_does_not_block (F : nat) (sem1 sem2 fen : nat -> Z)
    (fences : list Fence) :
  createSyncObjects F sem1 sem2 fen = Ok fences ->
  fences = replicate F Signaled
  /\ forall (ticks : list Driver) (frame : nat) (resized : bool)
       (before after : list Event) (slot : nat) (blocked : bool),
       run F ticks
         {| currentFrame := frame; framebufferResized := resized; inFlightFences := fences |}
       = (before ++ EvWaitForFences slot blocked :: after)%list ->
       (forall b, ~ In (EvWaitForFences slot b) before) ->
       blocked = false.
Proof.
  intros H. apply createSyncObjects_signaled in H. split; [exact H|].
  intros ticks frame resized before after slot blocked Hrun Hfirst.
  eapply run_first_wait; [|exact Hrun|exact Hfirst].
  simpl. intros f Hf. rewrite H in Hf.
  apply lookup_replicate in Hf as [-> _]. reflexivity.
Qed.

Lemma first_fence_wait_does_not_block_witness :
  createSyncObjects 2 always_success always_success always_success = Ok [Signaled; Signaled]
  /\ run 2 [example_driver VK_SUCCESS VK_SUCCESS; example_driver VK_SUCCESS VK_SUCCESS]
       (example_context false)
     = ([EvWaitForFences 0 false; EvAcquireNextImage 0]
        ++ submit_events 0 1 ++ [EvQueuePresent 1]
        ++ EvWaitForFences 1 false
           :: EvAcquireNextImage 1 :: submit_events 1 1 ++ [EvQueuePresent 1])%list.
Proof.
  split; [reflexivity|].
  assert (Hfirst : forall b : bool,
             ~ In (EvWaitForFences 1 b)
                 ([EvWaitForFences 0 false; EvAcquireNextImage 0]
                  ++ submit_events 0 1 ++ [EvQueuePresent 1])%list).
  { intros b Hin. simpl in Hin.
    repeat (destruct Hin as [Hin|Hin]; [discriminate Hin|]). exact Hin. }
  destruct (first_fence_wait_does_not_block 2 always_success always_success always_success
              [Signaled; Signaled] eq_refl) as [_ Hwait].
  set (blocked :=
         match nth_error
                 (run 2 [example_driver VK_SUCCESS VK_SUCCESS;
                         example_driver VK_SUCCESS VK_SUCCESS] (example_context false)) 8
         with
         | Some (EvWaitForFences _ b) => b
         | _ => true
         end).
  assert (Hrun : run 2 [example_driver VK_SUCCESS VK_SUCCESS;
                        example_driver VK_SUCCESS VK_SUCCESS] (example_context false)
                 = (([EvWaitForFences 0 false; EvAcquireNextImage 0]
                     ++ submit_events 0 1 ++ [EvQueuePresent 1])
                    ++ EvWaitForFences 1 blocked
                       :: EvAcquireNextImage 1 :: submit_events 1 1 ++ [EvQueuePresent 1])%list)
    by reflexivity.
  rewrite (Hwait _ 0%nat false _ _ 1%nat blocked Hrun Hfirst) in Hrun.
  exact Hrun.
Defined.

(** * Further properties of the code *)

(** ** Instance extensions and validation layers *)

Lemma count_occ_erase_first (x y : string) (l : list string) :
  count_occ string_dec (erase_first x l) y
  = if string_dec x y then Nat.pred (count_occ string_dec l y) else count_occ string_dec l y.
Proof.
  induction l as [|z l IH]; simpl.
  - destruct (string_dec x y); reflexivity.
  - destruct (String.eqb_spec z x) as [->|Hzx].
    + destruct (string_dec x y); reflexivity.
    + simpl. rewrite IH.
      destruct (string_dec z y) as [->|Hzy], (string_dec x y) as [->|Hxy];
        try congruence; try reflexivity.
Qed.

Lemma count_occ_erase_all (available required : list string) (y : string) :
  count_occ string_dec
    (foldl (fun required vk_ext => erase_first vk_ext required) required available) y
  = (count_occ string_dec required y - count_occ string_dec available y)%nat.
Proof.
  revert required. induction available as [|x available IH]; intros required; simpl.
  - lia.
  - rewrite IH, count_occ_erase_first.
    destruct (string_dec x y); lia.
Qed.

(** X1.  [getRequiredGLFWExtensions] either returns exactly the names GLFW
    requires, when Vulkan lists every one of them at least as often as
    GLFW names it, or throws, when some name is listed less often; it
    never returns a shortened or empty list. *)
Theorem getRequiredGLFWExtensions_all_or_throw (glfwExtensions extensions : list string) :
  (getRequiredGLFWExtensions glfwExtensions extensions = Ok glfwExtensions
   /\ forall name, (count_occ string_dec glfwExtensions name
                    <= count_occ string_dec extensions name)%nat)
  \/ (getRequiredGLFWExtensions glfwExtensions extensions
      = Throw "GLFW REQUIRED EXTENSION MISSING"
      /\ exists name, (count_occ string_dec extensions name
                       < count_occ string_dec glfwExtensions name)%nat).
Proof.
  unfold getRequiredGLFWExtensions, checkGLFWRequiredInstanceExtensions.
  pose proof (count_occ_erase_all extensions glfwExtensions) as Hcount.
  destruct (foldl _ glfwExtensions extensions) as [|missing rest]; simpl.
  - left. split; [reflexivity|]. intros name. specialize (Hcount name). simpl in Hcount. lia.
  - right. split; [reflexivity|]. exists missing. specialize (Hcount missing).
    simpl in Hcount. destruct (string_dec missing missing); [lia|congruence].
Qed.

Lemma checkValidationLayerSupport_found (layerName : string) (availableLayers : list string) :
  existsb (fun layerProperties => String.eqb layerName layerProperties) availableLayers = true
  <-> In layerName availableLayers.
Proof.
  rewrite existsb_exists. split.
  - intros (l & Hin & Heq). apply String.eqb_eq in Heq. subst. exact Hin.
  - intros Hin. exists layerName. split; [exact Hin|apply String.eqb_refl].
Qed.

(** X2.  [checkValidationLayerSupport] answers true exactly when every
    requested layer is among the available ones; with no layer requested
    it is true whatever is available. *)
Theorem checkValidationLayerSupport_spec (validationLayers availableLayers : list string) :
  checkValidationLayerSupport validationLayers availableLayers = true
  <-> forall layerName, In layerName validationLayers -> In layerName availableLayers.
Proof.
  induction validationLayers as [|layerName layers IH]; simpl.
  - split; [intros _ l []|reflexivity].
  - destruct (existsb _ availableLayers) eqn:Hfound; simpl.
    + apply checkValidationLayerSupport_found in Hfound. rewrite IH. split.
      * intros H l [<-|Hl]; auto.
      * intros H l Hl. apply H. right. exact Hl.
    + split; [discriminate|]. intros H.
      assert (Hin : In layerName availableLayers) by (apply H; left; reflexivity).
      apply checkValidationLayerSupport_found in Hin. congruence.
Qed.

(** ** Device selection *)

Lemma erase_all_difference (available : list string) (required : gset string) :
  foldl (fun (required : gset string) extension => required ∖ {[ extension ]})
    required available
  = required ∖ list_to_set available.
Proof.
  revert required. induction available as [|x available IH]; intros required; simpl.
  - set_solver.
  - rewrite IH. set_solver.
Qed.

(** Nothing is left of the required names once the available ones are
    erased exactly when every required name is available. *)
Lemma erased_all_iff (required available : list string) :
  (list_to_set required ∖ list_to_set available : gset string) = ∅
  <-> forall name, In name required -> In name available.
Proof.
  split.
  - intros Hempty name Hin. apply list_elem_of_In.
    apply list_elem_of_In in Hin.
    destruct (decide (name ∈ available)) as [|Hout]; [assumption|].
    assert (name ∈ (list_to_set required ∖ list_to_set available : gset string)) as Hin'
      by set_solver.
    rewrite Hempty in Hin'. set_solver.
  - intros Hall. apply set_eq. intros name. split; [|set_solver].
    rewrite elem_of_difference, !elem_of_list_to_set. intros [Hin Hout].
    exfalso. apply Hout. apply list_elem_of_In. apply Hall. apply list_elem_of_In. exact Hin.
Qed.

(** X3.  [checkDeviceExtensionSupport] answers true exactly when every
    required device extension is among those the device reports. *)
Theorem checkDeviceExtensionSupport_spec (deviceExtensions : list string)
    (device : DeviceReport) :
  checkDeviceExtensionSupport deviceExtensions device = true
  <-> forall name, In name deviceExtensions -> In name (availableExtensions device).
Proof.
  unfold checkDeviceExtensionSupport. rewrite erase_all_difference, bool_decide_eq_true.
  apply erased_all_iff.
Qed.

(** Graphics and transfer never resolve to one family. *)
Lemma findQueueFamilies_distinct (device : PhysicalDevice) (found : QueueFamilyIndices)
    (g t : nat) :
  findQueueFamilies device = Ok found ->
  graphicsFamily found = Some g -> transferFamily found = Some t -> g <> t.
Proof.
  intros Hfound Hg Ht <-.
  apply findQueueFamilies_scan_of in Hfound as [visited Hscan].
  apply findQueueFamilies_scan_spec in Hscan as (_ & _ & -> & _).
  simpl in Hg, Ht.
  apply last_index_below_Some in Hg as [Hg _].
  apply last_index_below_Some in Ht as [Ht _].
  unfold graphics_at in Hg. unfold transfer_at in Ht.
  destruct (queueFamilies device !! g) as [q|]; [|discriminate].
  rewrite (graphics_capable_not_transfer_only _ Hg) in Ht. discriminate Ht.
Qed.

Lemma last_index_below_exists (p : nat -> bool) (n i : nat) :
  (i < n)%nat -> p i = true -> exists j, last_index_below p n = Some j.
Proof.
  intros Hlt Hp. destruct (last_index_below p n) as [j|] eqn:Hlast; [eauto|].
  rewrite (last_index_below_None p n i Hlast Hlt) in Hp. discriminate Hp.
Qed.

(** X4.  [findQueueFamilies] throws exactly when the device reports no
    queue family; every index it returns is the index of a reported family
    that passes the test of its slot. *)
Theorem findQueueFamilies_sound (device : PhysicalDevice) :
  (queueFamilies device = []
   /\ findQueueFamilies device = Throw "failed to queueFamilies for device")
  \/ (queueFamilies device <> []
      /\ exists found,
           findQueueFamilies device = Ok found
           /\ (forall g, graphicsFamily found = Some g ->
                 exists q, queueFamilies device !! g = Some q /\ graphics_capable q = true)
           /\ (forall t, transferFamily found = Some t ->
                 exists q, queueFamilies device !! t = Some q /\ transfer_only q = true)
           /\ (forall p, presentFamily found = Some p ->
                 (p < length (queueFamilies device))%nat /\ surfaceSupport device p = true)).
Proof.
  destruct (queueFamilies device) as [|q0 rest] eqn:Hfams.
  - left. split; [reflexivity|].
    unfold findQueueFamilies, findQueueFamilies_scan. rewrite Hfams. reflexivity.
  - right. split; [discriminate|].
    destruct (findQueueFamilies_scan device) as [[found visited]| |] eqn:Hscan;
      try (unfold findQueueFamilies_scan in Hscan; rewrite Hfams in Hscan;
           simpl in Hscan; discriminate Hscan).
    exists found. split; [unfold findQueueFamilies; rewrite Hscan; reflexivity|].
    apply findQueueFamilies_scan_spec in Hscan as (_ & _ & -> & _). simpl.
    rewrite <- Hfams.
    split; [|split].
    + intros g Hg. apply last_index_below_Some in Hg as [Hg _].
      unfold graphics_at in Hg. destruct (queueFamilies device !! g) as [q|]; [eauto|discriminate].
    + intros t Ht. apply last_index_below_Some in Ht as [Ht _].
      unfold transfer_at in Ht. destruct (queueFamilies device !! t) as [q|]; [eauto|discriminate].
    + intros p Hp. apply last_index_below_Some in Hp as [Hp _].
      unfold present_at in Hp.
      destruct (queueFamilies device !! p) as [q|] eqn:Hq; [|discriminate].
      split; [|exact Hp]. apply lookup_lt_Some in Hq. rewrite Hfams in Hq. exact Hq.
Qed.

(** X5.  The selection is complete exactly when the device has a
    graphics-capable family, a transfer-only family and a family that can
    present: the early stop and the overwriting never lose a slot. *)
Theorem findQueueFamilies_complete_iff (device : PhysicalDevice) (found : QueueFamilyIndices) :
  findQueueFamilies device = Ok found ->
  (isComplete found = true
   <-> (exists g, graphics_at device g = true)
       /\ (exists t, transfer_at device t = true)
       /\ (exists p, present_at device p = true)).
Proof.
  intros Hfound. apply findQueueFamilies_scan_of in Hfound as [visited Hscan].
  apply findQueueFamilies_scan_spec in Hscan as (_ & Hlen & -> & _ & Hstop).
  split.
  - unfold isComplete, slots_after; simpl.
    destruct (last_index_below (graphics_at device) _) as [g|] eqn:Hg; [|discriminate].
    destruct (last_index_below (transfer_at device) _) as [t|] eqn:Ht; [|discriminate].
    destruct (last_index_below (present_at device) _) as [p|] eqn:Hp; [|discriminate].
    intros _.
    apply last_index_below_Some in Hg as [Hg _].
    apply last_index_below_Some in Ht as [Ht _].
    apply last_index_below_Some in Hp as [Hp _].
    split; [exists g; exact Hg|]. split; [exists t; exact Ht|exists p; exact Hp].
  - intros ((g & Hg) & (t & Ht) & (p & Hp)).
    destruct (decide (length visited < length (queueFamilies device))%nat) as [Hlt|Hge];
      [apply Hstop; exact Hlt|].
    assert (Hall : length visited = length (queueFamilies device)) by lia.
    assert (Hin : forall (f : PhysicalDevice -> nat -> bool) i,
               (forall j, f device j = true -> is_Some (queueFamilies device !! j)) ->
               f device i = true ->
               exists j, last_index_below (f device) (length visited) = Some j).
    { intros f i Hdom Hi. apply (last_index_below_exists _ _ i); [|exact Hi].
      rewrite Hall. apply lookup_lt_is_Some. apply Hdom. exact Hi. }
    assert (Hdom : forall (test : nat -> VkQueueFamilyProperties -> bool) j,
               match queueFamilies device !! j with
               | Some q => test j q
               | None => false
               end = true -> is_Some (queueFamilies device !! j)).
    { intros test j. destruct (queueFamilies device !! j); [eauto|discriminate]. }
    destruct (Hin graphics_at g (Hdom (fun _ q => graphics_capable q)) Hg) as [g' Hg'].
    destruct (Hin transfer_at t (Hdom (fun _ q => transfer_only q)) Ht) as [t' Ht'].
    destruct (Hin present_at p (Hdom (fun j _ => surfaceSupport device j)) Hp) as [p' Hp'].
    unfold isComplete, slots_after; simpl. rewrite Hg', Ht', Hp'. reflexivity.
Qed.

Lemma findQueueFamilies_complete_iff_witness :
  exists found, findQueueFamilies four_family_device = Ok found /\ isComplete found = true.
Proof.
  eexists. split; [reflexivity|].
  apply (findQueueFamilies_complete_iff four_family_device _ eq_refl).
  split; [exists 0%nat; reflexivity|].
  split; [exists 3%nat; reflexivity|exists 1%nat; reflexivity].
Defined.

(** X6.  [isDeviceSuitable] accepts a device exactly when its queue family
    selection is complete, every required extension is available, and the
    surface reports at least one format and one present mode. *)
Theorem isDeviceSuitable_spec (deviceExtensions : list string) (device : DeviceReport)
    (indices : QueueFamilyIndices) :
  isDeviceSuitable deviceExtensions device = Ok (indices, true)
  <-> findQueueFamilies (queues device) = Ok indices
      /\ isComplete indices = true
      /\ (forall name, In name deviceExtensions -> In name (availableExtensions device))
      /\ formats (swapChainSupport device) <> []
      /\ presentModes (swapChainSupport device) <> [].
Proof.
  unfold isDeviceSuitable.
  assert (Hsupport : checkDeviceExtensionSupport deviceExtensions device = true
                     <-> forall name, In name deviceExtensions
                                      -> In name (availableExtensions device)).
  { unfold checkDeviceExtensionSupport. rewrite erase_all_difference, bool_decide_eq_true.
    apply erased_all_iff. }
  rewrite <- Hsupport. clear Hsupport.
  destruct (findQueueFamilies (queues device)) as [found| |]; simpl;
    [|split; [discriminate|intros [H _]; discriminate H]..].
  split.
  - intros H. injection H as -> Hb.
    apply andb_true_iff in Hb as [Hb Hadequate].
    apply andb_true_iff in Hb as [Hcomplete Hext].
    rewrite Hext in Hadequate.
    apply andb_true_iff in Hadequate as [Hf Hm].
    apply negb_true_iff, bool_decide_eq_false in Hf.
    apply negb_true_iff, bool_decide_eq_false in Hm.
    auto.
  - intros (H & Hcomplete & Hext & Hf & Hm). injection H as ->.
    rewrite Hcomplete, Hext. simpl.
    rewrite !bool_decide_eq_false_2 by assumption. reflexivity.
Qed.

Lemma pickPhysicalDevice_loop_spec (deviceExtensions : list string)
    (devices : list DeviceReport) :
  forall (i : nat) (initial : QueueFamilyIndices) (picked : nat) (indices : QueueFamilyIndices),
    pickPhysicalDevice_loop deviceExtensions i devices initial = Ok (Some picked, indices)
    <-> exists k device,
          picked = (i + k)%nat
          /\ devices !! k = Some device
          /\ isDeviceSuitable deviceExtensions device = Ok (indices, true)
          /\ forall j, (j < k)%nat ->
               exists earlier rejected,
                 devices !! j = Some earlier
                 /\ isDeviceSuitable deviceExtensions earlier = Ok (rejected, false).
Proof.
  induction devices as [|device devices IH]; intros i initial picked indices; simpl.
  - split; [discriminate|]. intros (k & d & _ & Hk & _). discriminate Hk.
  - destruct (isDeviceSuitable deviceExtensions device) as [[found suitable]| |] eqn:Hs; simpl.
    + destruct suitable.
      * split.
        -- intros H. injection H as <- <-. exists 0%nat, device.
           rewrite Nat.add_0_r. repeat split; try reflexivity; [exact Hs|]. intros j Hj. lia.
        -- intros (k & d & -> & Hk & Hd & Hbefore).
           destruct k as [|k].
           ++ simpl in Hk. injection Hk as <-. rewrite Hs in Hd. injection Hd as <-.
              rewrite Nat.add_0_r. reflexivity.
           ++ destruct (Hbefore 0%nat ltac:(lia)) as (e & r & He & Hr).
              simpl in He. injection He as <-. rewrite Hs in Hr. discriminate Hr.
      * rewrite IH. split.
        -- intros (k & d & -> & Hk & Hd & Hbefore). exists (S k), d.
           split; [lia|]. split; [exact Hk|]. split; [exact Hd|].
           intros [|j] Hj; [exists device, found; split; [reflexivity|exact Hs]|].
           apply Hbefore. lia.
        -- intros (k & d & -> & Hk & Hd & Hbefore).
           destruct k as [|k].
           ++ simpl in Hk. injection Hk as <-. rewrite Hs in Hd. discriminate Hd.
           ++ exists k, d. split; [lia|]. split; [exact Hk|]. split; [exact Hd|].
              intros j Hj. apply (Hbefore (S j)). lia.
    + split; [discriminate|]. intros (k & d & -> & Hk & Hd & Hbefore).
      destruct k as [|k].
      * simpl in Hk. injection Hk as <-. rewrite Hs in Hd. discriminate Hd.
      * destruct (Hbefore 0%nat ltac:(lia)) as (e & r & He & Hr).
        simpl in He. injection He as <-. rewrite Hs in Hr. discriminate Hr.
    + split; [discriminate|]. intros (k & d & -> & Hk & Hd & Hbefore).
      destruct k as [|k].
      * simpl in Hk. injection Hk as <-. rewrite Hs in Hd. discriminate Hd.
      * destruct (Hbefore 0%nat ltac:(lia)) as (e & r & He & Hr).
        simpl in He. injection He as <-. rewrite Hs in Hr. discriminate Hr.
Qed.

(** X7.  [pickPhysicalDevice] picks the first device, in enumeration
    order, that [isDeviceSuitable] accepts, and leaves that device's queue
    family indices in the context; every device before it was examined
    and rejected without an exception. *)
Theorem pickPhysicalDevice_first_suitable (deviceExtensions : list string)
    (devices : list DeviceReport) (picked : nat) (indices : QueueFamilyIndices) :
  pickPhysicalDevice deviceExtensions devices = Ok (picked, indices)
  <-> exists device,
        devices !! picked = Some device
        /\ isDeviceSuitable deviceExtensions device = Ok (indices, true)
        /\ forall j, (j < picked)%nat ->
             exists earlier rejected,
               devices !! j = Some earlier
               /\ isDeviceSuitable deviceExtensions earlier = Ok (rejected, false).
Proof.
  unfold pickPhysicalDevice.
  destruct devices as [|device0 devices]; [simpl|].
  - split; [discriminate|]. intros (d & Hd & _). discriminate Hd.
  - cbn [length Nat.eqb].
    pose proof (pickPhysicalDevice_loop_spec deviceExtensions (device0 :: devices)
                  0 no_indices picked indices) as Hloop.
    destruct (pickPhysicalDevice_loop deviceExtensions 0 (device0 :: devices) no_indices)
      as [[[p|] ind]| |]; cbn [Result_bind fst snd].
    + split.
      * intros H. injection H as -> ->.
        destruct (proj1 Hloop eq_refl) as (k & d & -> & Hrest). exists d. exact Hrest.
      * intros (d & Hd & Hs & Hbefore).
        assert (Hex : Ok (Some p, ind) = Ok (Some picked, indices))
          by (apply Hloop; exists picked, d; auto).
        injection Hex as -> ->. reflexivity.
    + split; [discriminate|]. intros (d & Hd & Hs & Hbefore).
      assert (Hex : Ok (None, ind) = Ok (Some picked, indices))
        by (apply Hloop; exists picked, d; auto).
      discriminate Hex.
    + split; [discriminate|]. intros (d & Hd & Hs & Hbefore).
      assert (Hex : Throw what = Ok (Some picked, indices))
        by (apply Hloop; exists picked, d; auto).
      discriminate Hex.
    + split; [discriminate|]. intros (d & Hd & Hs & Hbefore).
      assert (Hex : Undefined = Ok (Some picked, indices))
        by (apply Hloop; exists picked, d; auto).
      discriminate Hex.
Qed.

(** X8.  [chooseSwapPresentMode] never fails: it answers mailbox when
    the surface lists mailbox and FIFO otherwise, also for an empty list. *)
Theorem chooseSwapPresentMode_spec (availablePresentModes : list Z) :
  (In VK_PRESENT_MODE_MAILBOX_KHR availablePresentModes ->
   chooseSwapPresentMode availablePresentModes = VK_PRESENT_MODE_MAILBOX_KHR)
  /\ (~ In VK_PRESENT_MODE_MAILBOX_KHR availablePresentModes ->
      chooseSwapPresentMode availablePresentModes = VK_PRESENT_MODE_FIFO_KHR).
Proof.
  unfold chooseSwapPresentMode.
  destruct (List.find _ availablePresentModes) as [m|] eqn:Hfind.
  - apply find_some in Hfind as [Hin Hm]. apply Z.eqb_eq in Hm. subst m.
    split; [reflexivity|]. intros Hn. contradiction.
  - split; [|reflexivity]. intros Hin.
    pose proof (find_none _ _ Hfind _ Hin) as Hno. simpl in Hno. discriminate Hno.
Qed.

(** X9.  [chooseSwapSurfaceFormat] only ever returns a format the surface
    reported, and its behaviour is undefined exactly on the empty list. *)
Theorem chooseSwapSurfaceFormat_member (availableFormats : list VkSurfaceFormatKHR) :
  (forall chosen, chooseSwapSurfaceFormat availableFormats = Ok chosen ->
                  In chosen availableFormats)
  /\ (chooseSwapSurfaceFormat availableFormats = Undefined <-> availableFormats = [])
  /\ (forall what, chooseSwapSurfaceFormat availableFormats <> Throw what).
Proof.
  unfold chooseSwapSurfaceFormat.
  destruct (List.find is_ideal_format availableFormats) as [f|] eqn:Hfind.
  - apply find_some in Hfind as [Hin _].
    split; [intros chosen H; injection H as <-; exact Hin|].
    split; [|discriminate].
    split; [discriminate|]. intros ->. destruct Hin.
  - destruct availableFormats as [|first rest]; simpl.
    + split; [discriminate|]. split; [tauto|discriminate].
    + split; [intros chosen H; injection H as <-; left; reflexivity|].
      split; [|discriminate]. split; discriminate.
Qed.

(** X10.  For a surface whose image-count range is well formed (minimum at
    most the maximum, or no maximum) the count requested for the swapchain
    lies in that range: it is never below the minimum and, when there is a
    maximum, never above it. *)
Theorem imageCount_in_range (caps : VkSurfaceCapabilitiesKHR) :
  0 <= minImageCount caps -> minImageCount caps + 1 < 2 ^ 32 ->
  maxImageCount caps = 0 \/ minImageCount caps <= maxImageCount caps ->
  minImageCount caps <= imageCount caps
  /\ (0 < maxImageCount caps -> imageCount caps <= maxImageCount caps).
Proof.
  intros Hmin Hfit Hmax. unfold imageCount, u32.
  rewrite Z.mod_small by lia.
  destruct (Z.ltb_spec 0 (maxImageCount caps)),
    (Z.ltb_spec (maxImageCount caps) (minImageCount caps + 1)); simpl; lia.
Qed.

Lemma imageCount_in_range_witness :
  2 <= imageCount (capabilities (example_support 2)) <= 2.
Proof.
  destruct (imageCount_in_range (capabilities (example_support 2))) as [Hlo Hhi];
    simpl; try lia.
  split; [exact Hlo|apply Hhi; simpl; lia].
Defined.

(** X11.  [createSwapChain] succeeds exactly when the surface reports at
    least one format, the graphics and transfer families are both selected
    and [vkCreateSwapchainKHR] returns success for the [createInfo] built
    from them; the chain then has the format that was chosen and the
    extent of [chooseSwapExtent].  It fails in three ways only: undefined
    behaviour when no format is reported, [bad_optional_access] when a
    family is missing, and "failed to create swap chain" when the driver
    refuses. *)
Theorem createSwapChain_succeeds_iff (support : SwapChainSupportDetails) (fb : Z * Z)
    (indices : QueueFamilyIndices) (vkCreateSwapchainKHR : VkSwapchainCreateInfoKHR -> Z) :
  ((exists chain, createSwapChain support fb indices vkCreateSwapchainKHR = Ok chain)
   <-> formats support <> []
       /\ is_Some (graphicsFamily indices) /\ is_Some (transferFamily indices)
       /\ forall createInfo,
            createSwapChain_createInfo support fb indices = Ok createInfo ->
            vkCreateSwapchainKHR createInfo = VK_SUCCESS)
  /\ match createSwapChain support fb indices vkCreateSwapchainKHR with
     | Ok chain =>
         exists surfaceFormat,
           chooseSwapSurfaceFormat (formats support) = Ok surfaceFormat
           /\ swapChainImageFormat chain = format surfaceFormat
           /\ swapChainExtent chain = chooseSwapExtent fb (capabilities support)
     | Throw what =>
         formats support <> []
         /\ ((what = "bad optional access"
              /\ (graphicsFamily indices = None \/ transferFamily indices = None))
             \/ (what = "failed to create swap chain"
                 /\ exists createInfo,
                      createSwapChain_createInfo support fb indices = Ok createInfo
                      /\ vkCreateSwapchainKHR createInfo <> VK_SUCCESS))
     | Undefined => formats support = []
     end.
Proof.
  unfold createSwapChain, createSwapChain_createInfo.
  destruct (chooseSwapSurfaceFormat_defined (formats support))
    as [[Hnil ->]|[Hformats [surfaceFormat ->]]]; cbn [Result_bind].
  { split; [|exact Hnil].
    split; [intros [chain H]; discriminate H|intros [H _]; contradiction]. }
  destruct (graphicsFamily indices) as [g|]; cbn [value Result_bind].
  2:{ split; [|split; [exact Hformats|left; auto]].
      split; [intros [chain H]; discriminate H|intros (_ & [g Hg] & _); discriminate Hg]. }
  destruct (transferFamily indices) as [t|]; cbn [value Result_bind].
  2:{ split; [|split; [exact Hformats|left; auto]].
      split; [intros [chain H]; discriminate H|intros (_ & _ & [t Ht] & _); discriminate Ht]. }
  match goal with
  | |- context [vkCreateSwapchainKHR ?ci] => set (createInfo := ci)
  end.
  destruct (Z.eqb_spec (vkCreateSwapchainKHR createInfo) VK_SUCCESS) as [Hok|Hfail];
    cbn [negb].
  - split.
    + split; [intros _|intros _; eexists; reflexivity].
      split; [exact Hformats|]. split; [eexists; reflexivity|].
      split; [eexists; reflexivity|].
      intros ci H. injection H as <-. exact Hok.
    + exists surfaceFormat. repeat split; reflexivity.
  - split.
    + split; [intros [chain H]; discriminate H|].
      intros (_ & _ & _ & Hall). destruct Hfail. apply Hall. reflexivity.
    + split; [exact Hformats|]. right. split; [reflexivity|].
      exists createInfo. split; [reflexivity|exact Hfail].
Qed.

(** What [isDeviceSuitable] has checked of a device it accepts, as far as
    the swapchain is concerned. *)
Lemma isDeviceSuitable_accepted (deviceExtensions : list string) (device : DeviceReport)
    (indices : QueueFamilyIndices) :
  isDeviceSuitable deviceExtensions device = Ok (indices, true) ->
  findQueueFamilies (queues device) = Ok indices
  /\ isComplete indices = true
  /\ formats (swapChainSupport device) <> [].
Proof.
  unfold isDeviceSuitable.
  destruct (findQueueFamilies (queues device)) as [found| |]; simpl; [|discriminate..].
  intros H. injection H as -> Hb.
  apply andb_true_iff in Hb as [Hb Hadequate].
  apply andb_true_iff in Hb as [Hcomplete Hext].
  rewrite Hext in Hadequate.
  apply andb_true_iff in Hadequate as [Hf _].
  apply negb_true_iff, bool_decide_eq_false in Hf.
  auto.
Qed.

(** The format chosen is one of the list. *)
Lemma chooseSwapSurfaceFormat_In (availableFormats : list VkSurfaceFormatKHR)
    (chosen : VkSurfaceFormatKHR) :
  chooseSwapSurfaceFormat availableFormats = Ok chosen -> In chosen availableFormats.
Proof.
  unfold chooseSwapSurfaceFormat.
  destruct (List.find is_ideal_format availableFormats) as [f|] eqn:Hfind.
  - apply find_some in Hfind as [Hin _]. intros H. injection H as <-. exact Hin.
  - destruct availableFormats as [|first rest]; simpl; [discriminate|].
    intros H. injection H as <-. left. reflexivity.
Qed.

(** X12.  For a device that [isDeviceSuitable] accepted, with the indices
    it left, building the swapchain create info cannot fail; the graphics
    and transfer families are distinct, so sharing is always concurrent
    between exactly those two (the exclusive branch is never taken), and
    the image format is one the surface reported. *)
Theorem suitable_device_swapchain (deviceExtensions : list string) (device : DeviceReport)
    (indices : QueueFamilyIndices) (fb : Z * Z) :
  isDeviceSuitable deviceExtensions device = Ok (indices, true) ->
  exists createInfo g t,
    createSwapChain_createInfo (swapChainSupport device) fb indices = Ok createInfo
    /\ graphicsFamily indices = Some g /\ transferFamily indices = Some t /\ g <> t
    /\ imageSharingMode createInfo = VK_SHARING_MODE_CONCURRENT
    /\ queueFamilyIndexCount createInfo = 2
    /\ pQueueFamilyIndices createInfo = Some [g; t]
    /\ In {| format := imageFormat createInfo; colorSpace := imageColorSpace createInfo |}
         (formats (swapChainSupport device)).
Proof.
  intros Hs. apply isDeviceSuitable_accepted in Hs as (Hfound & Hcomplete & Hf).
  unfold isComplete in Hcomplete.
  destruct (graphicsFamily indices) as [g|] eqn:Hg; [|discriminate].
  destruct (transferFamily indices) as [t|] eqn:Ht; [|discriminate].
  pose proof (findQueueFamilies_distinct _ _ _ _ Hfound Hg Ht) as Hne.
  pose proof (chooseSwapSurfaceFormat_In (formats (swapChainSupport device))) as Hmember.
  unfold createSwapChain_createInfo. rewrite Hg, Ht.
  destruct (chooseSwapSurfaceFormat_defined (formats (swapChainSupport device)))
    as [[Hnil _]|[_ [[fmt cs] Hfmt]]]; [contradiction|].
  rewrite Hfmt in *.
  simpl. eexists _, g, t. split; [reflexivity|]. simpl.
  rewrite bool_decide_eq_false_2 by congruence. simpl.
  repeat split; try assumption. apply Hmember. reflexivity.
Qed.

(** ** Logical device *)

Lemma std_set_insert_In (x y : nat) (s : list nat) :
  In y (std_set_insert x s) <-> y = x \/ In y s.
Proof.
  induction s as [|z s IH]; simpl; [intuition congruence|].
  destruct (Nat.ltb_spec x z); simpl; [intuition congruence|].
  destruct (Nat.eqb_spec x z) as [->|Hne]; simpl; [intuition congruence|].
  rewrite IH. tauto.
Qed.

Lemma std_set_insert_sorted (x : nat) (s : list nat) :
  StronglySorted lt s -> StronglySorted lt (std_set_insert x s).
Proof.
  induction 1 as [|z s Hs IH Hz]; simpl.
  - repeat constructor.
  - destruct (Nat.ltb_spec x z).
    + constructor; [constructor; assumption|].
      constructor; [assumption|].
      eapply Forall_impl; [exact Hz|]. simpl. intros; lia.
    + destruct (Nat.eqb_spec x z) as [->|Hne]; [constructor; assumption|].
      constructor; [exact IH|].
      apply Forall_forall. intros y Hy. apply list_elem_of_In, std_set_insert_In in Hy.
      destruct Hy as [->|Hy]; [lia|].
      rewrite Forall_forall in Hz. apply Hz, list_elem_of_In, Hy.
Qed.

(** X13.  When no physical device has been picked, [createLogicalDevice]
    returns at once: it builds nothing and does not throw, even with
    family indices missing.  Otherwise it requests one queue from each
    distinct family among graphics, present and transfer and from no
    other: the create infos are in strictly ascending family order, so no
    family is named twice; and it throws exactly when a family index is
    missing. *)
Theorem createLogicalDevice_queue_families (physicalDevice : option nat)
    (indices : QueueFamilyIndices) :
  match createLogicalDevice_queueCreateInfos physicalDevice indices with
  | Ok None => physicalDevice = None
  | Ok (Some queueCreateInfos) =>
      is_Some physicalDevice
      /\ exists g p t,
           graphicsFamily indices = Some g /\ presentFamily indices = Some p
           /\ transferFamily indices = Some t
           /\ StronglySorted lt (map queueFamilyIndex queueCreateInfos)
           /\ (forall q, In q (map queueFamilyIndex queueCreateInfos)
                         <-> q = g \/ q = p \/ q = t)
           /\ Forall (fun info => dq_queueCount info = 1) queueCreateInfos
  | Throw what =>
      is_Some physicalDevice
      /\ what = "bad optional access"
      /\ (graphicsFamily indices = None \/ presentFamily indices = None
          \/ transferFamily indices = None)
  | Undefined => False
  end.
Proof.
  unfold createLogicalDevice_queueCreateInfos.
  destruct physicalDevice as [device|]; [|reflexivity].
  assert (Hdevice : is_Some (Some device)) by (eexists; reflexivity).
  destruct (graphicsFamily indices) as [g|]; cbn [value Result_bind]; [|auto].
  destruct (presentFamily indices) as [p|]; cbn [value Result_bind]; [|auto].
  destruct (transferFamily indices) as [t|]; cbn [value Result_bind]; [|auto 6].
  split; [exact Hdevice|].
  exists g, p, t. do 3 (split; [reflexivity|]).
  rewrite map_map. cbn [queueFamilyIndex]. rewrite map_id.
  split; [|split].
  - repeat apply std_set_insert_sorted. constructor.
  - intros q. rewrite !std_set_insert_In. simpl. tauto.
  - apply Forall_forall. intros info Hin. apply list_elem_of_In, in_map_iff in Hin.
    destruct Hin as (q & <- & _). reflexivity.
Qed.

(** ** Image views and framebuffers *)

Lemma createImageViews_loop_spec (fmt : Z) (create : nat -> Z) (images : list nat) :
  forall i,
    (forall k, (k < length images)%nat -> create (i + k)%nat = VK_SUCCESS)
    <-> createImageViews_loop fmt create i images
        = Ok (map (fun image => {| iv_image := image; iv_format := fmt |}) images).
Proof.
  induction images as [|image images IH]; intros i; simpl.
  - split; [reflexivity|]. intros _ k Hk. lia.
  - destruct (Z.eqb_spec (create i) VK_SUCCESS) as [Hok|Hfail]; simpl.
    + specialize (IH (S i)).
      destruct (createImageViews_loop fmt create (S i) images) as [views| |]; simpl.
      * split.
        -- intros Hall. f_equal. f_equal.
           assert (Ok views = Ok (map (fun image => {| iv_image := image; iv_format := fmt |})
                                    images)) as Heq.
           { apply IH. intros k Hk. replace (S i + k)%nat with (i + S k)%nat by lia.
             apply Hall. lia. }
           injection Heq as ->. reflexivity.
        -- intros H. injection H as ->. intros [|k] Hk.
           ++ rewrite Nat.add_0_r. exact Hok.
           ++ replace (i + S k)%nat with (S i + k)%nat by lia.
              apply (proj2 IH eq_refl). lia.
      * split; [|discriminate]. intros Hall.
        assert (Throw what = Ok (map (fun image => {| iv_image := image; iv_format := fmt |})
                                   images)) as Heq.
        { apply IH. intros k Hk. replace (S i + k)%nat with (i + S k)%nat by lia.
          apply Hall. lia. }
        discriminate Heq.
      * split; [|discriminate]. intros Hall.
        assert (Undefined = Ok (map (fun image => {| iv_image := image; iv_format := fmt |})
                                  images)) as Heq.
        { apply IH. intros k Hk. replace (S i + k)%nat with (i + S k)%nat by lia.
          apply Hall. lia. }
        discriminate Heq.
    + split; [|discriminate]. intros Hall. destruct Hfail.
      rewrite <- (Nat.add_0_r i). apply Hall. lia.
Qed.

Lemma example_device_suitable :
  isDeviceSuitable example_extensions (example_device four_family_device)
  = Ok (four_family_indices, true).
Proof. vm_compute. reflexivity. Qed.

Lemma example_device_unsuitable :
  isDeviceSuitable example_extensions (example_device combined_family_device)
  = Ok ({| graphicsFamily := Some 0%nat; transferFamily := None; presentFamily := Some 0%nat |},
        false).
Proof. vm_compute. reflexivity. Qed.

Lemma suitable_device_swapchain_witness :
  exists createInfo,
    createSwapChain_createInfo (swapChainSupport (example_device four_family_device))
      (800, 600) four_family_indices = Ok createInfo
    /\ pQueueFamilyIndices createInfo = Some [1; 2]%nat.
Proof.
  destruct (suitable_device_swapchain example_extensions (example_device four_family_device)
              four_family_indices (800, 600) example_device_suitable)
    as (createInfo & g & t & Hci & Hg & Ht & _ & _ & _ & Hfamilies & _).
  exists createInfo. split; [exact Hci|].
  injection Hg as <-. injection Ht as <-. exact Hfamilies.
Defined.

Lemma pickPhysicalDevice_first_suitable_witness :
  pickPhysicalDevice example_extensions
    [example_device combined_family_device; example_device four_family_device]
  = Ok (1%nat, four_family_indices).
Proof.
  apply (pickPhysicalDevice_first_suitable example_extensions
           [example_device combined_family_device; example_device four_family_device]
           1%nat four_family_indices).
  exists (example_device four_family_device).
  split; [reflexivity|]. split; [exact example_device_suitable|].
  intros j Hj. assert (j = 0%nat) as -> by lia.
  eexists _, _. split; [reflexivity|exact example_device_unsuitable].
Defined.

Lemma createImageViews_loop_throws (fmt : Z) (create : nat -> Z) (images : list nat) :
  forall i k,
    (k < length images)%nat -> create (i + k)%nat <> VK_SUCCESS ->
    createImageViews_loop fmt create i images = Throw "failed to create image view!".
Proof.
  induction images as [|image images IH]; intros i k Hk Hfail; simpl in *; [lia|].
  destruct (Z.eqb_spec (create i) VK_SUCCESS) as [Hok|Hne]; simpl; [|reflexivity].
  destruct k as [|k]; [rewrite Nat.add_0_r in Hfail; contradiction|].
  rewrite (IH (S i) k); [reflexivity|lia|].
  replace (S i + k)%nat with (i + S k)%nat by lia. exact Hfail.
Qed.

Lemma createFramebuffers_loop_ok (extent : VkExtent2D) (create : nat -> Z)
    (views : list VkImageViewCreateInfo) :
  forall i,
    (forall k, (k < length views)%nat -> create (i + k)%nat = VK_SUCCESS) ->
    createFramebuffers_loop extent create i views
    = Ok (map (fun view => {| fb_attachment := view; fb_width := width extent;
                              fb_height := height extent; fb_layers := 1 |}) views).
Proof.
  induction views as [|view views IH]; intros i Hall; simpl; [reflexivity|].
  rewrite <- (Nat.add_0_r i) at 1. rewrite (Hall 0%nat) by (simpl; lia). simpl.
  rewrite IH; [reflexivity|].
  intros k Hk. replace (S i + k)%nat with (i + S k)%nat by lia. apply Hall. simpl. lia.
Qed.

Lemma createFramebuffers_loop_throws (extent : VkExtent2D) (create : nat -> Z)
    (views : list VkImageViewCreateInfo) :
  forall i k,
    (k < length views)%nat -> create (i + k)%nat <> VK_SUCCESS ->
    createFramebuffers_loop extent create i views = Throw "failed to create framebuffer!".
Proof.
  induction views as [|view views IH]; intros i k Hk Hfail; simpl in *; [lia|].
  destruct (Z.eqb_spec (create i) VK_SUCCESS) as [Hok|Hne]; simpl; [|reflexivity].
  destruct k as [|k]; [rewrite Nat.add_0_r in Hfail; contradiction|].
  rewrite (IH (S i) k); [reflexivity|lia|].
  replace (S i + k)%nat with (i + S k)%nat by lia. exact Hfail.
Qed.

(** X14.  When every [vkCreateImageView] and [vkCreateFramebuffer] call
    succeeds, [createImageViews] followed by [createFramebuffers] yields
    exactly one framebuffer per swapchain image, in image order, attached
    to a view of that image in the swapchain's format and sized to the
    swapchain's extent. *)
Theorem views_and_framebuffers_per_image (chain : SwapChain) (swapChainImages : list nat)
    (vkCreateImageView vkCreateFramebuffer : nat -> Z) :
  (forall i, (i < length swapChainImages)%nat -> vkCreateImageView i = VK_SUCCESS) ->
  (forall i, (i < length swapChainImages)%nat -> vkCreateFramebuffer i = VK_SUCCESS) ->
  exists views framebuffers,
    createImageViews chain swapChainImages vkCreateImageView = Ok views
    /\ createFramebuffers chain views vkCreateFramebuffer = Ok framebuffers
    /\ length framebuffers = length swapChainImages
    /\ forall i image,
         swapChainImages !! i = Some image ->
         framebuffers !! i
         = Some {| fb_attachment :=
                     {| iv_image := image; iv_format := swapChainImageFormat chain |};
                   fb_width := width (swapChainExtent chain);
                   fb_height := height (swapChainExtent chain);
                   fb_layers := 1 |}.
Proof.
  intros Hviews Hfbs. unfold createImageViews, createFramebuffers.
  eexists _, _. split.
  - apply createImageViews_loop_spec. intros k Hk. apply Hviews. exact Hk.
  - split.
    + apply createFramebuffers_loop_ok. intros k Hk. apply Hfbs.
      rewrite length_map in Hk. exact Hk.
    + split; [rewrite !length_map; reflexivity|].
      intros i image Hi. rewrite !list_lookup_fmap, Hi. reflexivity.
Qed.

Lemma views_and_framebuffers_per_image_witness :
  exists views framebuffers,
    createImageViews example_chain [10; 11; 12]%nat always_success = Ok views
    /\ createFramebuffers example_chain views always_success = Ok framebuffers
    /\ length framebuffers = 3%nat.
Proof.
  destruct (views_and_framebuffers_per_image example_chain [10; 11; 12]%nat
              always_success always_success)
    as (views & framebuffers & Hv & Hf & Hlen & _); try reflexivity.
  exists views, framebuffers. auto.
Defined.

(** X15.  If the driver fails to create the view of some swapchain image,
    [createImageViews] throws; if it fails to create some framebuffer,
    [createFramebuffers] throws: neither returns a shorter list. *)
Theorem views_and_framebuffers_fail (chain : SwapChain) (swapChainImages : list nat)
    (views : list VkImageViewCreateInfo) (create : nat -> Z) (k : nat) :
  create k <> VK_SUCCESS ->
  ((k < length swapChainImages)%nat ->
   createImageViews chain swapChainImages create = Throw "failed to create image view!")
  /\ ((k < length views)%nat ->
      createFramebuffers chain views create = Throw "failed to create framebuffer!").
Proof.
  intros Hfail. split; intros Hk.
  - apply (createImageViews_loop_throws _ _ _ 0%nat k Hk). exact Hfail.
  - apply (createFramebuffers_loop_throws _ _ _ 0%nat k Hk). exact Hfail.
Qed.

Lemma views_and_framebuffers_fail_witness :
  createImageViews example_chain [10; 11; 12]%nat
    (fun i => if (i =? 1)%nat then VK_ERROR_DEVICE_LOST else VK_SUCCESS)
  = Throw "failed to create image view!".
Proof.
  apply (views_and_framebuffers_fail example_chain [10; 11; 12]%nat [] _ 1%nat).
  - discriminate.
  - simpl. lia.
Defined.

(** ** Image creation and upload *)

Module ImageInitFacts.
Import ImageBuffer ImageInit.

Lemma transition_ok_supported (this after : t) (toLayout : Z) (commands : list Command) :
  transitionImageLayout this toLayout = (commands, Ok after) ->
  supported (imageLayout this) toLayout /\ after = with_layout this toLayout.
Proof.
  unfold supported, transitionImageLayout.
  destruct (Z.eqb_spec (imageLayout this) VK_IMAGE_LAYOUT_UNDEFINED) as [Hu|Hu];
    destruct (Z.eqb_spec toLayout VK_IMAGE_LAYOUT_TRANSFER_DST_OPTIMAL) as [Ht|Ht];
    destruct (Z.eqb_spec (imageLayout this) VK_IMAGE_LAYOUT_TRANSFER_DST_OPTIMAL) as [Hd|Hd];
    destruct (Z.eqb_spec toLayout VK_IMAGE_LAYOUT_SHADER_READ_ONLY_OPTIMAL) as [Hs|Hs];
    destruct (Z.eqb_spec toLayout VK_IMAGE_LAYOUT_DEPTH_STENCIL_ATTACHMENT_OPTIMAL) as [Ha|Ha];
    simpl; intros H; try discriminate H; injection H as _ <-; tauto.
Qed.

(** X16.  A texture whose file loads and whose image and memory are
    created ends in the shader-read-only layout after exactly two barriers
    around one copy: undefined to transfer-destination on the transfer
    queue, the copy of the whole image, then transfer-destination to
    shader-read-only on the graphics queue with ownership passing from the
    transfer family to the graphics family. *)
Theorem initTextureImageBuffer_uploads (transferFamily graphicsFamily : nat) (format : Z)
    (drv : Driver) (texWidth texHeight memoryType : Z) :
  stbi_load drv = Some (texWidth, texHeight) ->
  vkCreateImage drv = VK_SUCCESS ->
  findMemoryType drv = Ok memoryType ->
  vkAllocateMemory drv = VK_SUCCESS ->
  exists barrier1 barrier2 image,
    initTextureImageBuffer transferFamily graphicsFamily format drv
    = ([Cmd (beginCommandBuffer MEM_TransferCommand);
        Cmd (vkCmdPipelineBarrier VK_PIPELINE_STAGE_TOP_OF_PIPE_BIT
               VK_PIPELINE_STAGE_TRANSFER_BIT barrier1);
        Cmd endCommandBuffer;
        Cmd (beginCommandBuffer MEM_TransferCommand);
        vkCmdCopyBufferToImage VK_IMAGE_LAYOUT_TRANSFER_DST_OPTIMAL
          {| width := u32 texWidth; height := u32 texHeight |};
        Cmd endCommandBuffer;
        Cmd (beginCommandBuffer MEM_GraphicsCommand);
        Cmd (vkCmdPipelineBarrier VK_PIPELINE_STAGE_TRANSFER_BIT
               VK_PIPELINE_STAGE_FRAGMENT_SHADER_BIT barrier2);
        Cmd endCommandBuffer],
       Ok image)
    /\ imageLayout image = VK_IMAGE_LAYOUT_SHADER_READ_ONLY_OPTIMAL
    /\ imageFormat image = format
    /\ oldLayout barrier1 = VK_IMAGE_LAYOUT_UNDEFINED
    /\ newLayout barrier1 = VK_IMAGE_LAYOUT_TRANSFER_DST_OPTIMAL
    /\ oldLayout barrier2 = VK_IMAGE_LAYOUT_TRANSFER_DST_OPTIMAL
    /\ newLayout barrier2 = VK_IMAGE_LAYOUT_SHADER_READ_ONLY_OPTIMAL
    /\ srcQueueFamilyIndex barrier2 = transferFamily
    /\ dstQueueFamilyIndex barrier2 = graphicsFamily
    /\ aspectMask barrier1 = VK_IMAGE_ASPECT_COLOR_BIT
    /\ aspectMask barrier2 = VK_IMAGE_ASPECT_COLOR_BIT.
Proof.
  intros Hload Hcreate Hmem Halloc.
  unfold initTextureImageBuffer, initImageBuffer.
  rewrite Hload, Hcreate, Hmem, Halloc. simpl.
  do 3 eexists. split; [reflexivity|]. simpl. repeat split; reflexivity.
Qed.

Lemma initTextureImageBuffer_uploads_witness :
  exists image,
    snd (initTextureImageBuffer 1 0 VK_FORMAT_B8G8R8A8_SRGB loaded_texture) = Ok image
    /\ imageLayout image = VK_IMAGE_LAYOUT_SHADER_READ_ONLY_OPTIMAL.
Proof.
  destruct (initTextureImageBuffer_uploads 1 0 VK_FORMAT_B8G8R8A8_SRGB loaded_texture
              512 256 0 eq_refl eq_refl eq_refl eq_refl)
    as (b1 & b2 & image & Heq & Hlayout & _).
  exists image. rewrite Heq. split; [reflexivity|exact Hlayout].
Defined.

(** X17.  In the runs in which the staging buffer and the helpers
    [beginCommandBuffer] and [endCommandBuffer] (none of them among the
    sources) do not fail, and whatever [stbi_load], [vkCreateImage],
    [findMemoryType] and [vkAllocateMemory] answer: building a texture or a
    depth image never runs into the unsupported-transition error.  If it
    throws, it is with the load, image-creation or allocation error (or
    with what [findMemoryType] throws), and before any command is
    issued. *)
Theorem image_init_failures (transferFamily graphicsFamily : nat) (format : Z) (drv : Driver) :
  let failure_is_early (r : list Step * Result t) :=
    forall what,
      snd r = Throw what ->
      fst r = []
      /\ (what = "failed to load texture image!"
          \/ what = "failed to create image!"
          \/ what = "failed to allocate image memory!"
          \/ findMemoryType drv = Throw what) in
  failure_is_early (initTextureImageBuffer transferFamily graphicsFamily format drv)
  /\ failure_is_early (initDepthImageBuffer transferFamily graphicsFamily format drv).
Proof.
  cbv zeta.
  assert (Hmake : forall this,
             initImageBuffer transferFamily graphicsFamily format drv = Ok this ->
             imageLayout this = VK_IMAGE_LAYOUT_UNDEFINED).
  { unfold initImageBuffer. intros this.
    destruct (negb _); [discriminate|].
    destruct (findMemoryType drv); simpl; try discriminate.
    destruct (negb _); [discriminate|]. intros H; injection H as <-. reflexivity. }
  assert (Hfail : forall w,
             initImageBuffer transferFamily graphicsFamily format drv = Throw w ->
             w = "failed to create image!" \/ w = "failed to allocate image memory!"
             \/ findMemoryType drv = Throw w).
  { unfold initImageBuffer. intros w.
    destruct (negb _); [intros H; injection H as <-; auto|].
    destruct (findMemoryType drv); simpl; try discriminate.
    - destruct (negb _); [intros H; injection H as <-; auto|discriminate].
    - intros H; injection H as <-. auto. }
  split; intros what.
  - unfold initTextureImageBuffer.
    destruct (stbi_load drv) as [[w h]|]; [|simpl; intros H; injection H as <-; auto].
    destruct (initImageBuffer transferFamily graphicsFamily format drv) as [this| |] eqn:Hi;
      simpl; [|intros H; injection H as <-; split; [reflexivity|]; right; auto|discriminate].
    pose proof (Hmake this eq_refl) as Hlayout.
    destruct (ImageBufferFacts.supported_transition_submits this VK_IMAGE_LAYOUT_TRANSFER_DST_OPTIMAL)
      as (op1 & s1 & d1 & b1 & -> & _).
    { left. split; [exact Hlayout|reflexivity]. }
    destruct (ImageBufferFacts.supported_transition_submits
                (with_layout this VK_IMAGE_LAYOUT_TRANSFER_DST_OPTIMAL)
                VK_IMAGE_LAYOUT_SHADER_READ_ONLY_OPTIMAL)
      as (op2 & s2 & d2 & b2 & -> & _).
    { right. left. split; reflexivity. }
    simpl. discriminate.
  - unfold initDepthImageBuffer.
    destruct (initImageBuffer transferFamily graphicsFamily format drv) as [this| |] eqn:Hi;
      simpl; [|intros H; injection H as <-; split; [reflexivity|]; right; auto|discriminate].
    pose proof (Hmake this eq_refl) as Hlayout.
    destruct (ImageBufferFacts.supported_transition_submits this
                VK_IMAGE_LAYOUT_DEPTH_STENCIL_ATTACHMENT_OPTIMAL)
      as (op1 & s1 & d1 & b1 & -> & _).
    { right. right. split; [exact Hlayout|reflexivity]. }
    simpl. discriminate.
Qed.

(** X18.  A depth image whose image and memory are created ends in the
    depth-stencil-attachment layout after one barrier on the graphics
    queue; the barrier covers the stencil aspect exactly when the format
    has a stencil component. *)
Theorem initDepthImageBuffer_transitions (transferFamily graphicsFamily : nat) (format : Z)
    (drv : Driver) (memoryType : Z) :
  vkCreateImage drv = VK_SUCCESS ->
  findMemoryType drv = Ok memoryType ->
  vkAllocateMemory drv = VK_SUCCESS ->
  exists barrier image,
    initDepthImageBuffer transferFamily graphicsFamily format drv
    = ([Cmd (beginCommandBuffer MEM_GraphicsCommand);
        Cmd (vkCmdPipelineBarrier VK_PIPELINE_STAGE_TOP_OF_PIPE_BIT
               VK_PIPELINE_STAGE_EARLY_FRAGMENT_TESTS_BIT barrier);
        Cmd endCommandBuffer],
       Ok image)
    /\ imageLayout image = VK_IMAGE_LAYOUT_DEPTH_STENCIL_ATTACHMENT_OPTIMAL
    /\ Z.testbit (aspectMask barrier) 1 = true
    /\ Z.testbit (aspectMask barrier) 0 = false
    /\ (Z.testbit (aspectMask barrier) 2 = true
        <-> format = VK_FORMAT_D32_SFLOAT_S8_UINT \/ format = VK_FORMAT_D24_UNORM_S8_UINT).
Proof.
  intros Hcreate Hmem Halloc.
  unfold initDepthImageBuffer, initImageBuffer.
  rewrite Hcreate, Hmem, Halloc. simpl.
  unfold transitionImageLayout, hasStencilComponent. simpl.
  destruct (Z.eqb_spec format VK_FORMAT_D32_SFLOAT_S8_UINT) as [H32|H32];
    destruct (Z.eqb_spec format VK_FORMAT_D24_UNORM_S8_UINT) as [H24|H24]; simpl;
    do 2 eexists; (split; [reflexivity|]); simpl;
    (split; [reflexivity|]); (split; [reflexivity|]); (split; [reflexivity|]);
    split; auto; try discriminate; intros [H|H]; contradiction.
Qed.

Lemma initDepthImageBuffer_transitions_witness :
  exists image,
    snd (initDepthImageBuffer 1 0 VK_FORMAT_D32_SFLOAT depth_image)
    = Ok image
    /\ imageLayout image = VK_IMAGE_LAYOUT_DEPTH_STENCIL_ATTACHMENT_OPTIMAL.
Proof.
  destruct (initDepthImageBuffer_transitions 1 0 VK_FORMAT_D32_SFLOAT
              depth_image 0 eq_refl eq_refl eq_refl)
    as (b & image & Heq & Hlayout & _).
  exists image. rewrite Heq. split; [reflexivity|exact Hlayout].
Defined.

(** X19.  The layout of an image only moves along undefined to
    transfer-destination to shader-read-only, or undefined to
    depth-stencil-attachment: starting from an undefined layout, a
    sequence of transitions that all succeed has at most two steps, and
    once the image is shader-read-only or a depth-stencil attachment every
    further transition throws. *)
Theorem transitions_from_undefined (this after : t) (targets : list Z) :
  imageLayout this = VK_IMAGE_LAYOUT_UNDEFINED ->
  transitions this targets = Ok after ->
  targets = []
  \/ targets = [VK_IMAGE_LAYOUT_TRANSFER_DST_OPTIMAL]
  \/ targets = [VK_IMAGE_LAYOUT_TRANSFER_DST_OPTIMAL; VK_IMAGE_LAYOUT_SHADER_READ_ONLY_OPTIMAL]
  \/ targets = [VK_IMAGE_LAYOUT_DEPTH_STENCIL_ATTACHMENT_OPTIMAL].
Proof.
  assert (Hstep : forall (img img' : t) (to : Z) (rest : list Z),
             transitions img (to :: rest) = Ok img' ->
             supported (imageLayout img) to
             /\ transitions (with_layout img to) rest = Ok img').
  { intros img img' to rest. simpl.
    destruct (transitionImageLayout img to) as [commands [next| |]] eqn:Hstep;
      simpl; try discriminate.
    apply transition_ok_supported in Hstep as [Hsup ->]. auto. }
  intros Hundef Hok.
  destruct targets as [|to1 rest]; [auto|].
  apply Hstep in Hok as [Hsup1 Hok]. unfold supported in Hsup1. rewrite Hundef in Hsup1.
  destruct Hsup1 as [[_ ->] | [[Hbad _] | [_ ->]]]; [|discriminate Hbad|].
  - destruct rest as [|to2 rest]; [auto|].
    apply Hstep in Hok as [Hsup2 Hok]. unfold supported in Hsup2. simpl in Hsup2.
    destruct Hsup2 as [[Hbad _] | [[_ ->] | [Hbad _]]]; try discriminate Hbad.
    destruct rest as [|to3 rest]; [auto|].
    apply Hstep in Hok as [Hsup3 _]. unfold supported in Hsup3. simpl in Hsup3.
    destruct Hsup3 as [[Hbad _] | [[Hbad _] | [Hbad _]]]; discriminate Hbad.
  - destruct rest as [|to2 rest]; [auto|].
    apply Hstep in Hok as [Hsup2 _]. unfold supported in Hsup2. simpl in Hsup2.
    destruct Hsup2 as [[Hbad _] | [[Hbad _] | [Hbad _]]]; discriminate Hbad.
Qed.

Lemma transitions_from_undefined_witness :
  let targets :=
    [VK_IMAGE_LAYOUT_TRANSFER_DST_OPTIMAL; VK_IMAGE_LAYOUT_SHADER_READ_ONLY_OPTIMAL] in
  targets = []
  \/ targets = [VK_IMAGE_LAYOUT_TRANSFER_DST_OPTIMAL]
  \/ targets = [VK_IMAGE_LAYOUT_TRANSFER_DST_OPTIMAL; VK_IMAGE_LAYOUT_SHADER_READ_ONLY_OPTIMAL]
  \/ targets = [VK_IMAGE_LAYOUT_DEPTH_STENCIL_ATTACHMENT_OPTIMAL].
Proof.
  exact (transitions_from_undefined
           {| imageLayout := VK_IMAGE_LAYOUT_UNDEFINED;
              imageFormat := VK_FORMAT_B8G8R8A8_SRGB;
              transferQueueFamily := 1; graphicsQueueFamily := 0 |}
           _ [VK_IMAGE_LAYOUT_TRANSFER_DST_OPTIMAL; VK_IMAGE_LAYOUT_SHADER_READ_ONLY_OPTIMAL]
           eq_refl eq_refl).
Defined.

End ImageInitFacts.

(** ** Draw buffers and descriptor sets *)

Lemma createDescriptorSet_loop_uniform (F : nat) (drawBuffers : list DrawBuffer)
    (slots : list nat) :
  (forall i, In i slots -> drawBuffers !! (2 + i)%nat = Some (UniformBuffer i)) ->
  createDescriptorSet_loop drawBuffers slots = Ok (map UniformBuffer slots).
Proof.
  induction slots as [|i slots IH]; intros Hall; [reflexivity|].
  cbn [createDescriptorSet_loop]. rewrite (Hall i) by (left; reflexivity).
  rewrite IH; [reflexivity|]. intros j Hj. apply Hall. right. exact Hj.
Qed.

(** X20.  When [createDrawBuffers] succeeds the vector holds the vertex
    buffer, the index buffer, one uniform buffer per frame slot and the
    texture, in that order; hence [drawBuffers[2+i]], which
    [createDescriptorSet] binds to descriptor set [i] and which
    [updateUniformBuffer] writes for slot [i], is in range and is the
    uniform buffer created for slot [i], for every slot. *)
Theorem createDescriptorSet_binds_slot_uniforms (F : nat) (textureFormat : Z)
    (indices : QueueFamilyIndices) (texture : ImageInit.Driver) (drawBuffers : list DrawBuffer) :
  createDrawBuffers F textureFormat indices texture = Ok drawBuffers ->
  length drawBuffers = (F + 3)%nat
  /\ drawBuffers !! 0%nat = Some VertexBuffer
  /\ drawBuffers !! 1%nat = Some IndexBuffer
  /\ (forall i, (i < F)%nat -> drawBuffers !! (2 + i)%nat = Some (UniformBuffer i))
  /\ createDescriptorSet F VK_SUCCESS drawBuffers = Ok (map UniformBuffer (seq 0 F)).
Proof.
  unfold createDrawBuffers.
  destruct (getGraphicsHandler indices) as [[t g]| |]; cbn [Result_bind fst snd];
    try discriminate.
  destruct (snd (ImageInit.initTextureImageBuffer t g textureFormat texture))
    as [image| |]; cbn [Result_bind]; try discriminate.
  intros H. injection H as <-.
  assert (Huniform : forall i, (i < F)%nat ->
             (([VertexBuffer; IndexBuffer] ++ map UniformBuffer (seq 0 F))
              ++ [TextureImage image])%list !! (2 + i)%nat = Some (UniformBuffer i)).
  { intros i Hi. rewrite <- app_assoc. cbn [app]. cbn [Nat.add]. simpl.
    rewrite lookup_app_l by (rewrite length_map, length_seq; exact Hi).
    rewrite list_lookup_fmap, lookup_seq_lt by exact Hi. reflexivity. }
  split; [simpl; rewrite length_app, length_map, length_seq; simpl; lia|].
  split; [reflexivity|]. split; [reflexivity|]. split; [exact Huniform|].
  unfold createDescriptorSet. cbn [Z.eqb VK_SUCCESS negb].
  apply (createDescriptorSet_loop_uniform F). intros i Hi. apply Huniform.
  apply in_seq in Hi. lia.
Qed.

Lemma createDescriptorSet_binds_slot_uniforms_witness :
  exists drawBuffers,
    createDrawBuffers 2 VK_FORMAT_B8G8R8A8_SRGB (example_indices 0 1)
      ImageInit.loaded_texture = Ok drawBuffers
    /\ createDescriptorSet 2 VK_SUCCESS drawBuffers = Ok [UniformBuffer 0; UniformBuffer 1].
Proof.
  eexists. split; [reflexivity|].
  apply (createDescriptorSet_binds_slot_uniforms 2 VK_FORMAT_B8G8R8A8_SRGB
           (example_indices 0 1) ImageInit.loaded_texture).
  reflexivity.
Defined.

(** ** Runs of frames *)

Lemma well_formed_with_fence (F slot : nat) (f : Fence) (ctx : GraphicsContext) :
  f <> VK_NULL_HANDLE -> well_formed F ctx -> well_formed F (with_fence slot f ctx).
Proof.
  intros Hf (Hc & Hlen & Hall). unfold well_formed; simpl.
  split; [exact Hc|]. split; [rewrite length_insert; exact Hlen|].
  apply Forall_insert; assumption.
Qed.

Lemma well_formed_next_frame (F : nat) (ctx : GraphicsContext) :
  well_formed F ctx -> well_formed F (next_frame F ctx).
Proof.
  intros (Hc & Hlen & Hall). unfold well_formed; simpl.
  split; [apply Nat.mod_upper_bound; lia|]. split; assumption.
Qed.

Lemma well_formed_with_framebufferResized (F : nat) (b : bool) (ctx : GraphicsContext) :
  well_formed F ctx -> well_formed F (with_framebufferResized b ctx).
Proof. intros H. exact H. Qed.

Lemma Draw_after_wait_well_formed (F : nat) (drv : Driver) (ctx : GraphicsContext) :
  well_formed F ctx ->
  well_formed F (context (Draw_after_wait F drv (currentFrame ctx) ctx)).
Proof.
  intros Hwf. unfold Draw_after_wait. cbn [prepend exit context].
  assert (Hreset : well_formed F (with_fence (currentFrame ctx) Unsignaled ctx))
    by (apply well_formed_with_fence; [discriminate|exact Hwf]).
  assert (Hsubmitted : well_formed F (with_fence (currentFrame ctx) Pending
                                        (with_fence (currentFrame ctx) Unsignaled ctx)))
    by (apply well_formed_with_fence; [discriminate|exact Hreset]).
  destruct (negb (vkBeginCommandBuffer drv =? VK_SUCCESS)); [exact Hreset|].
  destruct (negb (vkEndCommandBuffer drv =? VK_SUCCESS)); [exact Hreset|].
  destruct (negb (vkQueueSubmit drv =? VK_SUCCESS)); [exact Hreset|].
  cbn [prepend exit context].
  destruct (needs_recreation drv _).
  - cbn [context].
    destruct (fst (recreateSwapChain_flat drv)); [apply well_formed_next_frame|..];
      apply well_formed_with_framebufferResized, Hsubmitted.
  - destruct (negb (vkQueuePresentKHR drv =? VK_SUCCESS)); cbn [context].
    + exact Hsubmitted.
    + apply well_formed_next_frame, Hsubmitted.
Qed.

(** After the wait, the only fence [Draw] names is the one of its slot. *)
Lemma Draw_after_wait_fences_of_slot (F : nat) (drv : Driver) (slot : nat)
    (ctx : GraphicsContext) :
  fences_of_slot slot (events (Draw_after_wait F drv slot ctx)).
Proof.
  unfold fences_of_slot, Draw_after_wait. rewrite Draw_acquire_outcome.
  assert (Hr : Forall (fun e => match e with
                                | EvWaitForFences s _ | EvResetFences s => s = slot
                                | _ => True
                                end) (snd (recreateSwapChain_flat drv))).
  { destruct (recreateSwapChain_flat_spec drv) as [_ [H|H]]; rewrite H; repeat constructor. }
  destruct (negb (vkAcquireNextImageKHR drv =? VK_SUCCESS));
    destruct (negb (vkBeginCommandBuffer drv =? VK_SUCCESS));
    destruct (negb (vkEndCommandBuffer drv =? VK_SUCCESS));
    destruct (negb (vkQueueSubmit drv =? VK_SUCCESS));
    destruct (needs_recreation drv
                (with_fence slot Pending (with_fence slot Unsignaled ctx)));
    destruct (negb (vkQueuePresentKHR drv =? VK_SUCCESS));
    simpl; repeat first [exact Hr | constructor].
Qed.

(** X21.  [Draw] keeps the invariant on which its accesses to
    [inFlightFences] rely.  From a context whose current slot is one of the
    F slots and whose F fences all exist, and with a driver that hands out
    an image, the call starts with the wait on the fence of the current
    slot, which is there and not null; every fence it waits on or resets is
    that one; and the context it leaves, also when it throws, is again
    such a context.  This is about [currentFrame] and [inFlightFences]
    only: the model does not follow the read of
    [swapChainFramebuffers[imageIndex]] in [recordCommandBuffer]. *)
Theorem Draw_keeps_well_formed (F : nat) (drv : Driver) (ctx : GraphicsContext) :
  well_formed F ctx ->
  image_acquired drv ->
  let o := Draw F drv ctx in
  well_formed F (context o)
  /\ (exists f blocked rest,
        inFlightFences ctx !! currentFrame ctx = Some f
        /\ f <> VK_NULL_HANDLE
        /\ events o = EvWaitForFences (currentFrame ctx) blocked :: rest)
  /\ fences_of_slot (currentFrame ctx) (events o).
Proof.
  intros Hwf _. cbv zeta. rewrite Draw_flat_eq. unfold Draw_flat.
  pose proof Hwf as (Hc & Hlen & Hall).
  destruct (inFlightFences ctx !! currentFrame ctx) as [f|] eqn:Hf.
  - assert (Hnull : f <> VK_NULL_HANDLE).
    { rewrite Forall_forall in Hall. apply Hall. eapply list_elem_of_lookup_2. exact Hf. }
    destruct f; try contradiction; cbn [prepend exit context events].
    + split; [apply Draw_after_wait_well_formed; exact Hwf|].
      split; [eauto 10|].
      constructor; [reflexivity|apply Draw_after_wait_fences_of_slot].
    + split; [exact Hwf|]. split; [eauto 10|]. repeat constructor.
    + assert (Hwf1 : well_formed F (with_fence (currentFrame ctx) Signaled ctx))
        by (apply well_formed_with_fence; [discriminate|exact Hwf]).
      split; [apply (Draw_after_wait_well_formed F drv _ Hwf1)|].
      split; [eauto 10|].
      constructor; [reflexivity|apply Draw_after_wait_fences_of_slot].
  - apply lookup_ge_None in Hf. lia.
Qed.

Lemma Draw_keeps_well_formed_witness :
  well_formed 2 (context (Draw 2 (example_driver VK_SUCCESS VK_SUCCESS) (example_context false)))
  /\ fences_of_slot 0
       (events (Draw 2 (example_driver VK_SUCCESS VK_SUCCESS) (example_context false))).
Proof.
  destruct (Draw_keeps_well_formed 2 (example_driver VK_SUCCESS VK_SUCCESS)
              (example_context false)) as (Hwf & _ & Hslot).
  - unfold well_formed; simpl. split; [lia|]. split; [reflexivity|].
    repeat constructor; discriminate.
  - left. reflexivity.
  - split; [exact Hwf|exact Hslot].
Defined.

Lemma waits_app (es es' : list Event) : waits (es ++ es') = (waits es ++ waits es')%list.
Proof.
  induction es as [|e es IH]; [reflexivity|].
  destruct e; simpl; rewrite IH; reflexivity.
Qed.

Lemma waits_acquire (drv : Driver) (slot : nat) (ctx : GraphicsContext) :
  waits (events (Draw_acquire drv slot ctx)) = [].
Proof. rewrite Draw_acquire_outcome. simpl. destruct (negb _); reflexivity. Qed.

Lemma recreations_acquire (drv : Driver) (slot : nat) (ctx : GraphicsContext) :
  ~ In EvRecreateSwapChain (events (Draw_acquire drv slot ctx)).
Proof.
  rewrite Draw_acquire_outcome. simpl. destruct (negb _); simpl; intuition discriminate.
Qed.

(** A frame the driver lets through, once the wait has returned. *)
Lemma Draw_after_wait_succeeds (F : nat) (drv : Driver) (slot : nat) (ctx : GraphicsContext) :
  frame_succeeds drv ->
  framebufferResized ctx = false ->
  let o := Draw_after_wait F drv slot ctx in
  exit o = Normal tt
  /\ waits (events o) = []
  /\ ~ In EvRecreateSwapChain (events o)
  /\ currentFrame (context o) = ((currentFrame ctx + 1) mod F)%nat
  /\ framebufferResized (context o) = false
  /\ inFlightFences (context o)
     = <[slot := Pending]> (<[slot := Unsignaled]> (inFlightFences ctx)).
Proof.
  intros (_ & Hb & He & Hs & Hp) Hflag. unfold Draw_after_wait.
  rewrite Hb, He, Hs. cbn [Z.eqb VK_SUCCESS negb].
  unfold needs_recreation. cbn [with_fence framebufferResized]. rewrite Hp, Hflag.
  cbn [Z.eqb VK_SUCCESS VK_ERROR_OUT_OF_DATE_KHR VK_SUBOPTIMAL_KHR orb negb].
  cbn [prepend exit context events]. rewrite !waits_app, waits_acquire.
  split; [reflexivity|]. split; [reflexivity|].
  split; [|simpl; rewrite Hflag; repeat split; reflexivity].
  intros Hin. apply in_app_or in Hin as [Hin|Hin].
  - exact (recreations_acquire drv slot ctx Hin).
  - simpl in Hin. intuition discriminate.
Qed.

Lemma fences_after_lookup (F k j : nat) :
  (j < F)%nat ->
  fences_after F k !! j = Some (if (j <? k)%nat then Pending else Signaled).
Proof.
  intros Hj. unfold fences_after. rewrite list_lookup_fmap, lookup_seq_lt by exact Hj.
  reflexivity.
Qed.

Lemma fences_after_length (F k : nat) : length (fences_after F k) = F.
Proof. unfold fences_after. rewrite length_map, length_seq. reflexivity. Qed.

Lemma fences_after_step (F k : nat) :
  (0 < F)%nat ->
  <[(k mod F)%nat := Pending]> (fences_after F k) = fences_after F (S k).
Proof.
  intros HF. apply list_eq. intros j.
  pose proof (Nat.mod_upper_bound k F ltac:(lia)) as Hmod.
  destruct (Nat.lt_ge_cases j F) as [Hj|Hj].
  - rewrite (fences_after_lookup F (S k) j Hj).
    destruct (Nat.eq_dec j (k mod F)%nat) as [->|Hne].
    + rewrite list_lookup_insert_eq by (rewrite fences_after_length; exact Hmod).
      pose proof (Nat.Div0.mod_le k F).
      destruct (Nat.ltb_spec (k mod F)%nat (S k)); [reflexivity|lia].
    + rewrite list_lookup_insert_ne by congruence.
      rewrite (fences_after_lookup F k j Hj).
      destruct (Nat.ltb_spec j k), (Nat.ltb_spec j (S k)); try reflexivity; try lia.
      assert (j = k) by lia. subst j. rewrite Nat.mod_small in Hne by exact Hj. congruence.
  - rewrite !lookup_ge_None_2; [reflexivity| |];
      rewrite ?length_insert, fences_after_length; exact Hj.
Qed.

(** One frame that goes through, [k] frames into the run. *)
Lemma Draw_frame_k (F k : nat) (drv : Driver) :
  (0 < F)%nat -> frame_succeeds drv ->
  let o := Draw F drv {| currentFrame := (k mod F)%nat; framebufferResized := false;
                         inFlightFences := fences_after F k |} in
  exit o = Normal tt
  /\ waits (events o) = [((k mod F)%nat, (F <=? k)%nat)]
  /\ ~ In EvRecreateSwapChain (events o)
  /\ context o = {| currentFrame := (S k mod F)%nat; framebufferResized := false;
                    inFlightFences := fences_after F (S k) |}.
Proof.
  intros HF Hdrv. cbv zeta. rewrite Draw_flat_eq. unfold Draw_flat.
  cbn [currentFrame inFlightFences].
  pose proof (Nat.mod_upper_bound k F ltac:(lia)) as Hmod.
  rewrite (fences_after_lookup F k _ Hmod).
  assert (Hnext : (((k mod F) + 1) mod F = S k mod F)%nat).
  { rewrite Nat.Div0.add_mod_idemp_l. f_equal. lia. }
  assert (Hlen : (k mod F < length (fences_after F k))%nat)
    by (rewrite fences_after_length; exact Hmod).
  assert (Hcontext : forall c : GraphicsContext,
             currentFrame c = (S k mod F)%nat -> framebufferResized c = false ->
             inFlightFences c = fences_after F (S k) ->
             c = {| currentFrame := (S k mod F)%nat; framebufferResized := false;
                    inFlightFences := fences_after F (S k) |}).
  { intros [frame flag fences]. simpl. intros -> -> ->. reflexivity. }
  destruct (Nat.ltb_spec (k mod F)%nat k) as [Hlt|Hge].
  - (* the fence is pending: k >= F *)
    assert (Hk : (F <=? k)%nat = true).
    { apply Nat.leb_le. destruct (Nat.lt_ge_cases k F) as [Hs|Hs]; [|exact Hs].
      rewrite Nat.mod_small in Hlt by exact Hs. lia. }
    destruct (Draw_after_wait_succeeds F drv (k mod F)%nat
                (with_fence (k mod F)%nat Signaled
                   {| currentFrame := (k mod F)%nat; framebufferResized := false;
                      inFlightFences := fences_after F k |}) Hdrv eq_refl)
      as (Hexit & Hwaits & Hquiet & Hframe & Hflag & Hfences).
    cbn [prepend exit context events]. rewrite Hexit, Hk. cbn [waits app]. rewrite Hwaits.
    split; [reflexivity|]. split; [reflexivity|].
    split; [intros [Hin|Hin]; [discriminate|exact (Hquiet Hin)]|].
    apply Hcontext; [rewrite Hframe; exact Hnext|exact Hflag|].
    rewrite Hfences. cbn [with_fence currentFrame inFlightFences].
    rewrite !list_insert_insert_eq. apply (fences_after_step F k HF).
  - assert (Hk : (F <=? k)%nat = false).
    { apply Nat.leb_gt. destruct (Nat.lt_ge_cases k F) as [Hs|Hs]; [exact Hs|].
      pose proof (Nat.mod_upper_bound k F ltac:(lia)). lia. }
    destruct (Draw_after_wait_succeeds F drv (k mod F)%nat
                {| currentFrame := (k mod F)%nat; framebufferResized := false;
                   inFlightFences := fences_after F k |} Hdrv eq_refl)
      as (Hexit & Hwaits & Hquiet & Hframe & Hflag & Hfences).
    cbn [prepend exit context events]. rewrite Hexit, Hk. cbn [waits app]. rewrite Hwaits.
    split; [reflexivity|]. split; [reflexivity|].
    split; [intros [Hin|Hin]; [discriminate|exact (Hquiet Hin)]|].
    apply Hcontext; [rewrite Hframe; exact Hnext|exact Hflag|].
    rewrite Hfences. cbn [currentFrame inFlightFences].
    rewrite !list_insert_insert_eq. apply (fences_after_step F k HF).
Qed.

Lemma run_frames_from (F : nat) (ticks : list Driver) :
  (0 < F)%nat -> Forall frame_succeeds ticks ->
  forall k : nat,
    let trace := run F ticks {| currentFrame := (k mod F)%nat; framebufferResized := false;
                                inFlightFences := fences_after F k |} in
    waits trace = map (fun i => ((i mod F)%nat, (F <=? i)%nat)) (seq k (length ticks))
    /\ ~ In EvRecreateSwapChain trace.
Proof.
  intros HF Hall. induction Hall as [|drv ticks Hdrv Hall IH]; intros k;
    [split; [reflexivity|intros []]|].
  cbv zeta.
  change (run F (drv :: ticks) ?c)
    with (events (Draw F drv c)
          ++ match exit (Draw F drv c) with
             | Hang | UB => []
             | _ => run F ticks (context (Draw F drv c))
             end)%list.
  destruct (Draw_frame_k F k drv HF Hdrv) as (Hexit & Hwaits & Hquiet & Hcontext).
  rewrite waits_app, Hwaits, Hexit, Hcontext.
  destruct (IH (S k)) as [IHwaits IHquiet].
  split.
  - cbn [length seq map app]. f_equal. exact IHwaits.
  - intros Hin. apply in_app_or in Hin as [Hin|Hin]; [exact (Hquiet Hin)|exact (IHquiet Hin)].
Qed.

(** X22.  Frames that the driver lets through without asking for a new
    swapchain (it hands out an image, recording and submission succeed and
    presentation returns [VK_SUCCESS]; nobody has called
    [ResizeFramebuffer]) rotate over the F slots and pipeline F deep:
    starting at slot 0 with the fences of [createSyncObjects], the k-th
    call of [Draw] waits on the fence of slot k mod F and on no other; the
    first F waits find the fence signaled as created, and every later wait
    is on a fence that the submission made F frames earlier has named and
    that nothing has waited on since.  The swapchain is never recreated in
    such a run. *)
Theorem frames_rotate_and_pipeline (F : nat) (sem1 sem2 fen : nat -> Z) (fences : list Fence)
    (ticks : list Driver) :
  (0 < F)%nat ->
  createSyncObjects F sem1 sem2 fen = Ok fences ->
  Forall frame_succeeds ticks ->
  let trace := run F ticks {| currentFrame := 0; framebufferResized := false;
                              inFlightFences := fences |} in
  waits trace = map (fun k => ((k mod F)%nat, (F <=? k)%nat)) (seq 0 (length ticks))
  /\ ~ In EvRecreateSwapChain trace.
Proof.
  intros HF Hsync Hall. apply createSyncObjects_signaled in Hsync. subst fences.
  assert (Hinit : replicate F Signaled = fences_after F 0).
  { apply list_eq. intros j. destruct (Nat.lt_ge_cases j F) as [Hj|Hj].
    - rewrite lookup_replicate_2 by exact Hj. rewrite fences_after_lookup by exact Hj.
      reflexivity.
    - rewrite !lookup_ge_None_2; [reflexivity| |];
        rewrite ?length_replicate, ?fences_after_length; exact Hj. }
  pose proof (run_frames_from F ticks HF Hall 0) as Hrun. cbv zeta in Hrun.
  rewrite Nat.Div0.mod_0_l in Hrun. rewrite Hinit. exact Hrun.
Qed.

Lemma frames_rotate_and_pipeline_witness :
  waits (run 2 [example_driver VK_SUCCESS VK_SUCCESS; example_driver VK_SUCCESS VK_SUCCESS;
                example_driver VK_SUCCESS VK_SUCCESS] (example_context false))
  = [(0%nat, false); (1%nat, false); (0%nat, true)].
Proof.
  apply (frames_rotate_and_pipeline 2 always_success always_success always_success
           [Signaled; Signaled]
           [example_driver VK_SUCCESS VK_SUCCESS; example_driver VK_SUCCESS VK_SUCCESS;
            example_driver VK_SUCCESS VK_SUCCESS]).
  - lia.
  - reflexivity.
  - repeat constructor.
Defined.





(** ** Swapchain recreation *)






